(** * COINSTAC main process: the pipeline-run IPC handlers

    A shallow embedding of the handlers that the Electron main process
    registers for [login-init], [start-pipeline] and [stop-pipeline].

    The handlers are asynchronous JavaScript: each one performs some
    synchronous work and then registers callbacks on promises and event
    emitters owned by collaborators that live outside this file (the client
    core, the docker manager, the pipeline engine).  The embedding is the
    usual one for such code: the state that the callbacks close over is a
    record, every callback is one case of a transition function [step], and
    what the collaborators do (a promise settles, a stream emits) arrives as
    an [event].  Everything the handler does to the outside world is
    recorded, in order, as a list of [action]s.

    What is taken as given: the arguments of a handler have the shape its
    documentation states (the steps returned by [parsePipelineInput] carry
    their computations, a plain value in the place of a stream carries its
    [message] and [statusCode]); the logger and the notification helper
    return normally; a collaborator's promise may settle either way, or
    never, with any value as its reason. *)

From Stdlib Require Import List String ZArith Bool.
From Stdlib Require Import PeanoNat Lia.
Import ListNotations.
Open Scope string_scope.
Open Scope list_scope.

(** ** JavaScript values *)

(** The values that flow through the handlers: rejection reasons, engine
    results, progress payloads.  An object is kept as the list of its own
    properties, in insertion order. *)
#[warnings="-register-all"] Inductive value : Type :=
| VUndefined
| VNull
| VBool (b : bool)
| VNum (n : Z)
| VStr (s : string)
| VObj (fields : list (string * value)).

Fixpoint lookup {A : Type} (k : string) (fs : list (string * A)) : option A :=
  match fs with
  | [] => None
  | (k', v) :: rest => if String.eqb k' k then Some v else lookup k rest
  end.

(** [v.k] for the property names the handlers read ([message], [stack],
    [error], [input]).  Reading a property of [undefined] or [null] throws
    a TypeError ([None]); a primitive has none of these properties and an
    object answers [undefined] for a property it does not own. *)
Definition get_prop (v : value) (k : string) : option value :=
  match v with
  | VUndefined | VNull => None
  | VObj fs =>
      Some (match lookup k fs with Some x => x | None => VUndefined end)
  | VBool _ | VNum _ | VStr _ => Some VUndefined
  end.

(** [`${v}`] for the two values that have no properties. *)
Definition nullish_name (v : value) : string :=
  match v with
  | VNull => "null"
  | _ => "undefined"
  end.

(** The error the runtime throws when reading [base.k] fails: its message
    names the property and the value.  Of its [stack] only the first line
    is kept, the frames below it depend on the runtime. *)
Definition TypeError (base : value) (k : string) : value :=
  let msg :=
    String.append "Cannot read property '"
      (String.append k (String.append "' of " (nullish_name base))) in
  VObj [("message", VStr msg);
        ("stack", VStr (String.append "TypeError: " msg))].

(** The own property names of an object. *)
Definition keys (v : value) : list string :=
  match v with
  | VObj fs => map fst fs
  | _ => []
  end.

(** ** Pipelines and runs *)

Record computationInfo : Type := { dockerImage : string }.

Record computationRef : Type := { computation : computationInfo }.

Record pipelineStep : Type := { computations : list computationRef }.

Record Pipeline : Type := {
  pipeline_name : string;
  pipeline_steps : list pipelineStep
}.

Record Consortium : Type := {
  consortium_id : string;
  consortium_name : string
}.

(** The [run] object of [start-pipeline].  It is one JavaScript object that
    every callback of the handler closes over and that [Object.assign]
    mutates in place; [run_error], [run_results] and [run_endDate] are the
    properties the handler assigns ([None]: the property is absent). *)
Record Run : Type := {
  run_id : string;
  run_type : string;
  run_pipelineSteps : value;
  run_pipelineSnapshot : Pipeline;
  run_error : option value;
  run_results : option value;
  run_endDate : option Z
}.

(** [Object.assign(run, { error, endDate })] *)
Definition assign_error (r : Run) (payload : value) (now : Z) : Run :=
  {| run_id := run_id r;
     run_type := run_type r;
     run_pipelineSteps := run_pipelineSteps r;
     run_pipelineSnapshot := run_pipelineSnapshot r;
     run_error := Some payload;
     run_results := run_results r;
     run_endDate := Some now |}.

(** [Object.assign(run, { results, endDate })] *)
Definition assign_results (r : Run) (results : value) (now : Z) : Run :=
  {| run_id := run_id r;
     run_type := run_type r;
     run_pipelineSteps := run_pipelineSteps r;
     run_pipelineSnapshot := run_pipelineSnapshot r;
     run_error := run_error r;
     run_results := Some results;
     run_endDate := Some now |}.

(** ** The image list

    [pipeline.steps.map(step => step.computations.map(comp =>
       comp.computation.dockerImage)).reduce((acc, val) => acc.concat(val), [])] *)
Definition computationImageList (pipeline : Pipeline) : list string :=
  fold_left (fun acc val => acc ++ val)
    (map (fun step =>
            map (fun comp => dockerImage (computation comp))
                (computations step))
         (pipeline_steps pipeline))
    [].

(** The image references of one step, in the order of its computations. *)
Definition step_images (step : pipelineStep) : list string :=
  map (fun comp => dockerImage (computation comp)) (computations step).

(** The resolver as the specification words it: every distinct reference
    once, at the place of its first occurrence. *)
Fixpoint first_occurrences (seen l : list string) : list string :=
  match l with
  | [] => []
  | x :: rest =>
      if existsb (String.eqb x) seen then first_occurrences seen rest
      else x :: first_occurrences (x :: seen) rest
  end.

Definition spec_image_list (pipeline : Pipeline) : list string :=
  first_occurrences [] (List.concat (map step_images (pipeline_steps pipeline))).

Definition mkStep (images : list string) : pipelineStep :=
  {| computations :=
       map (fun i => {| computation := {| dockerImage := i |} |}) images |}.

(** Scenario 1 of the specification: the steps name imgA, imgB, imgA. *)
Definition scenario1_pipeline : Pipeline :=
  {| pipeline_name := "regression";
     pipeline_steps := [mkStep ["imgA"]; mkStep ["imgB"]; mkStep ["imgA"]] |}.

(** ** Collaborators and what the handler observes of them *)

(** How a promise handed out by a collaborator settles. *)
Inductive outcome (A : Type) : Type :=
| Fulfilled (a : A)
| Rejected (reason : value).

Arguments Fulfilled {A} a.
Arguments Rejected {A} reason.

(** The plain value the docker manager yields in the place of a stream when
    a pull never started. *)
Record pullFailure : Type := { message : string; statusCode : Z }.

(** One entry of [compStreams]: [typeof stream.on === 'function'] holds for
    an [Emitter] and fails for a [Plain] value. *)
Inductive stream : Type :=
| Emitter
| Plain (failure : pullFailure).

(** What reaches the handler from outside, one callback at a time. *)
Inductive event : Type :=
| PullSettled (o : outcome (list stream))   (* pullImagesFromList(...) *)
| StreamData (i : nat) (data : string)      (* stream i emits 'data' *)
| StreamEnd (i : nat)                       (* stream i emits 'end' *)
| StreamError (i : nat) (err : value)       (* stream i emits 'error' *)
| UnlinkSettled (o : outcome unit)          (* unlinkFiles(run.id) *)
| PruneSettled (o : outcome unit)           (* pruneImages() *)
| StartSettled (o : outcome unit)           (* startPipeline(...) *)
| StateUpdate (data : value)                (* stateEmitter emits 'update' *)
| ResultSettled (o : outcome value).        (* the engine's [result] *)

(** Messages pushed to the window with [mainWindow.webContents.send]; the
    constructor stands for the channel name. *)
Inductive ipcMessage : Type :=
| SaveLocalRun (r : Run)
| LocalPipelineStateUpdate (r : Run) (data : value)
| LocalRunError (consName : string) (r : Run)
| LocalRunComplete (consName : string) (r : Run)
| DockerError (err : value).

(** Everything a handler does to the outside world. *)
Inductive action : Type :=
| Send (m : ipcMessage)
| PullImagesFromList (images : list string)
| StreamOn (i : nat) (evt : string)
| UnlinkFiles (runId : string)
| PruneImages
| LogVerbose (text : value)
| LogError (err : value)
| SendNotification (title body : string)
| StartPipeline (clients : value) (consortiumId : string)
                (pipeline : Pipeline) (filesArray : value) (runId : string)
                (pipelineSteps : value)
| StateEmitterOn (evt : string)
| RequestPipelineStop (pipelineId runId : string)
| ConfigureCore (userId : string) (appDirectory : string)
| UpsertCoinstacUserDir.

(** ** The promises of [streamProms] *)

Inductive promise : Type :=
| Pending
| Resolved
| RejectedWith (reason : value).

(** [proxRes()] and [proxRej(reason)]: settling a settled promise does
    nothing. *)
Definition proxRes (p : promise) : promise :=
  match p with Pending => Resolved | _ => p end.

Definition proxRej (reason : value) (p : promise) : promise :=
  match p with Pending => RejectedWith reason | _ => p end.

Fixpoint settle (i : nat) (f : promise -> promise) (ps : list promise)
  : list promise :=
  match ps, i with
  | [], _ => []
  | p :: rest, O => f p :: rest
  | p :: rest, S j => p :: settle j f rest
  end.

Definition is_resolved (p : promise) : bool :=
  match p with Resolved => true | _ => false end.

Definition is_pending (p : promise) : bool :=
  match p with Pending => true | _ => false end.

(** [Promise.all(streamProms)] at the moment it is called: the reactions of
    the promises that are settled by then run in index order, so the first
    rejected promise gives the reason. *)
Inductive aggregate : Type :=
| AllPending
| AllFulfilled
| AllRejected (reason : value).

Fixpoint first_rejection (ps : list promise) : option value :=
  match ps with
  | [] => None
  | RejectedWith reason :: _ => Some reason
  | _ :: rest => first_rejection rest
  end.

Definition promise_all (ps : list promise) : aggregate :=
  match first_rejection ps with
  | Some reason => AllRejected reason
  | None => if forallb is_resolved ps then AllFulfilled else AllPending
  end.

(** ** State of one [start-pipeline] invocation *)

Inductive settled : Type :=
| ChainFulfilled
| ChainRejected (reason : value).

(** Where the promise chain of the handler stands: the promise it waits
    for, with the variables the pending callback has captured. *)
Inductive phase : Type :=
| AwaitingPull
| AwaitingStreams
| AcquisitionCleanup (err : value)
| AwaitingPrune
| AwaitingStart
| AwaitingResult
| CompletionCleanup (results : value)
| FailureCleanup (error : value)
| Finished (o : settled).

Record state : Type := {
  consortium : Consortium;
  filesArray : value;
  run : Run;
  chain : phase;
  compStreams : list stream;
  streamProms : list promise;
  subscribed : bool
}.

Definition with_chain (s : state) (p : phase) : state :=
  {| consortium := consortium s; filesArray := filesArray s; run := run s;
     chain := p; compStreams := compStreams s;
     streamProms := streamProms s; subscribed := subscribed s |}.

Definition with_run (s : state) (r : Run) : state :=
  {| consortium := consortium s; filesArray := filesArray s; run := r;
     chain := chain s; compStreams := compStreams s;
     streamProms := streamProms s; subscribed := subscribed s |}.

Definition with_streams (s : state) (cs : list stream) (ps : list promise)
  : state :=
  {| consortium := consortium s; filesArray := filesArray s; run := run s;
     chain := chain s; compStreams := cs;
     streamProms := ps; subscribed := subscribed s |}.

Definition with_subscribed (s : state) : state :=
  {| consortium := consortium s; filesArray := filesArray s; run := run s;
     chain := chain s; compStreams := compStreams s;
     streamProms := streamProms s; subscribed := true |}.

(** A computation that changes the state and acts on the world; [>>=]
    sequences two of them and concatenates what they did. *)
Definition effect : Type := state * list action.

Definition andThen (x : effect) (k : state -> effect) : effect :=
  let '(s1, a1) := x in
  let '(s2, a2) := k s1 in
  (s2, a1 ++ a2).

Notation "x >>= k" := (andThen x k) (at level 58, left associativity).

Definition pure (s : state) : effect := (s, []).

Definition emit (a : list action) (s : state) : effect := (s, a).

(** ** The [start-pipeline] handler *)

Definition newline : string := String (Ascii.ascii_of_nat 10) EmptyString.

(** [{ controllerState: 'Downloading required docker images' }] *)
Definition downloading : value :=
  VObj [("controllerState", VStr "Downloading required docker images")].

(** [{ controllerState: `Downloading required docker images\n ${data.toString()}` }] *)
Definition downloading_data (data : string) : value :=
  VObj [("controllerState",
         VStr (String.append "Downloading required docker images"
                 (String.append newline (String.append " " data))))].

(** [`Pipeline ${pipelineName} <verb> on consortia ${consortiumName}`] *)
Definition notification_body (verb : string) (s : state) : string :=
  String.append "Pipeline "
    (String.append (pipeline_name (run_pipelineSnapshot (run s)))
       (String.append " "
          (String.append verb
             (String.append " on consortia "
                (consortium_name (consortium s)))))).

(** [{ message: err.message, stack: err.stack, error: err.error }]:
    [None] when reading [err.message] throws. *)
Definition error_payload (err : value) : option value :=
  match get_prop err "message", get_prop err "stack", get_prop err "error" with
  | Some m, Some st, Some e =>
      Some (VObj [("message", m); ("stack", st); ("error", e)])
  | _, _, _ => None
  end.

(** [{ message: error.message, stack: error.stack, error: error.error,
       input: error.input }] *)
Definition execution_error_payload (error : value) : option value :=
  match get_prop error "message", get_prop error "stack",
        get_prop error "error", get_prop error "input" with
  | Some m, Some st, Some e, Some i =>
      Some (VObj [("message", m); ("stack", st); ("error", e); ("input", i)])
  | _, _, _, _ => None
  end.

(** The body of [compStreams.forEach]: one promise per entry; a plain value
    rejects its promise at once with [stream.message], an emitter gets a
    first state update and its three listeners. *)
Fixpoint forEach_compStreams (r : Run) (i : nat) (cs : list stream)
  : list promise * list action :=
  match cs with
  | [] => ([], [])
  | Plain failure :: rest =>
      let '(ps, acts) := forEach_compStreams r (S i) rest in
      (proxRej (VStr (message failure)) Pending :: ps, acts)
  | Emitter :: rest =>
      let '(ps, acts) := forEach_compStreams r (S i) rest in
      (Pending :: ps,
       Send (LocalPipelineStateUpdate r downloading)
         :: StreamOn i "data" :: StreamOn i "end" :: StreamOn i "error"
         :: acts)
  end.

(** [.catch((err) => initializedCore.unlinkFiles(run.id).then(...))]:
    the handler of a failed acquisition starts the cleanup. *)
Definition acquisition_catch (err : value) (s : state) : effect :=
  (with_chain s (AcquisitionCleanup err), [UnlinkFiles (run_id (run s))]).

(** [.then(() => initializedCore.dockerManager.pruneImages())] *)
Definition then_prune (s : state) : effect :=
  (with_chain s AwaitingPrune, [PruneImages]).

(** [.then(() => { ...; return initializedCore.startPipeline(...) ... })] *)
Definition then_start (s : state) : effect :=
  (with_chain s AwaitingStart,
   [LogVerbose (VStr "############ Client starting pipeline");
    SendNotification "Pipeline started" (notification_body "started" s);
    StartPipeline VNull
                  (consortium_id (consortium s))
                  (run_pipelineSnapshot (run s))
                  (filesArray s)
                  (run_id (run s))
                  (run_pipelineSteps (run s))]).

(** The last [.catch((error) => ...)] of the chain, around [startPipeline]
    and the two result handlers. *)
Definition outer_catch (now : Z) (error : value) (s : state) : effect :=
  match error_payload error with
  | Some payload =>
      let r := assign_error (run s) payload now in
      (with_chain (with_run s r) (Finished ChainFulfilled),
       [Send (LocalRunError (consortium_name (consortium s)) r)])
  | None =>
      (with_chain s (Finished (ChainRejected (TypeError error "message"))),
       [])
  end.

(** [result.then(...).catch((error) => ...)]: the handler of a rejected
    result, up to its call of [unlinkFiles]. *)
Definition result_catch (now : Z) (error : value) (s : state) : effect :=
  match get_prop error "message" with
  | Some m =>
      (with_chain s (FailureCleanup error),
       [LogVerbose (VStr "########### Client pipeline error");
        LogVerbose m;
        SendNotification "Pipeline stopped" (notification_body "stopped" s);
        UnlinkFiles (run_id (run s))])
  | None =>
      emit [LogVerbose (VStr "########### Client pipeline error")] s
        >>= outer_catch now (TypeError error "message")
  end.

(** [result.then((results) => ...)], up to its call of [unlinkFiles]. *)
Definition result_then (results : value) (s : state) : effect :=
  (with_chain s (CompletionCleanup results),
   [LogVerbose (VStr "########### Client pipeline done");
    SendNotification "Pipeline finished" (notification_body "finished" s);
    UnlinkFiles (run_id (run s))]).

(** Whether stream [i] carries the listeners of [forEach_compStreams]. *)
Definition listening (s : state) (i : nat) : bool :=
  match nth_error (compStreams s) i with
  | Some Emitter => true
  | _ => false
  end.

(** The synchronous part of the handler, up to the call of
    [pullImagesFromList]. *)
Definition start_pipeline (c : Consortium) (files : value) (r : Run)
  : effect :=
  ({| consortium := c; filesArray := files; run := r;
      chain := AwaitingPull; compStreams := []; streamProms := [];
      subscribed := false |},
   [Send (SaveLocalRun r);
    PullImagesFromList (computationImageList (run_pipelineSnapshot r))]).

(** One callback runs to completion, together with the reactions of the
    promise chain that follow it in the same turn.  An event for which no
    callback is registered at that point leaves everything as it is.  The
    handler is taken with [initializedCore] set, as it is once [login-init]
    has completed. *)
Definition step (s : state) (now : Z) (e : event) : effect :=
  match e with
  | PullSettled o =>
      match chain s with
      | AwaitingPull =>
          match o with
          | Fulfilled cs =>
              (* .then((compStreams) => { compStreams.forEach(...);
                                          return Promise.all(streamProms); }) *)
              let '(proms, acts) := forEach_compStreams (run s) 0 cs in
              let s1 := with_streams s cs proms in
              match promise_all proms with
              | AllRejected err => emit acts s1 >>= acquisition_catch err
              | AllFulfilled => emit acts s1 >>= then_prune
              | AllPending => (with_chain s1 AwaitingStreams, acts)
              end
          | Rejected err => acquisition_catch err s
          end
      | _ => pure s
      end
  | StreamData i data =>
      (* stream.on('data', (data) => { ...send('local-pipeline-state-update') }) *)
      if listening s i
      then (s, [Send (LocalPipelineStateUpdate (run s) (downloading_data data))])
      else pure s
  | StreamEnd i =>
      (* stream.on('end', () => { proxRes(); }) *)
      if listening s i then
        match nth_error (streamProms s) i with
        | Some Pending =>
            let s1 :=
              with_streams s (compStreams s) (settle i proxRes (streamProms s)) in
            match chain s1 with
            | AwaitingStreams =>
                (* Promise.all fulfils with the last promise *)
                if forallb is_resolved (streamProms s1)
                then then_prune s1 else pure s1
            | _ => pure s1
            end
        | _ => pure s
        end
      else pure s
  | StreamError i err =>
      (* stream.on('error', (err) => { proxRej(err); }) *)
      if listening s i then
        match nth_error (streamProms s) i with
        | Some Pending =>
            let s1 :=
              with_streams s (compStreams s)
                (settle i (proxRej err) (streamProms s)) in
            match chain s1 with
            | AwaitingStreams =>
                (* Promise.all rejects with the first rejection *)
                acquisition_catch err s1
            | _ => pure s1
            end
        | _ => pure s
        end
      else pure s
  | UnlinkSettled o =>
      match chain s with
      | AcquisitionCleanup err =>
          (* unlinkFiles(run.id).then(() => { send('local-run-error', ...) })
             inside the .catch of the acquisition, then the next .then *)
          match o with
          | Fulfilled _ =>
              match error_payload err with
              | Some payload =>
                  let r := assign_error (run s) payload now in
                  emit [Send (LocalRunError (consortium_name (consortium s)) r)]
                       (with_run s r)
                    >>= then_prune
              | None =>
                  pure (with_chain s
                          (Finished (ChainRejected (TypeError err "message"))))
              end
          | Rejected reason =>
              pure (with_chain s (Finished (ChainRejected reason)))
          end
      | CompletionCleanup results =>
          (* unlinkFiles(run.id).then(() => { if (run.type === 'local') ... })
             inside result.then; its rejection goes to result's .catch *)
          match o with
          | Fulfilled _ =>
              if String.eqb (run_type (run s)) "local" then
                let r := assign_results (run s) results now in
                (with_chain (with_run s r) (Finished ChainFulfilled),
                 [Send (LocalRunComplete (consortium_name (consortium s)) r)])
              else pure (with_chain s (Finished ChainFulfilled))
          | Rejected reason => result_catch now reason s
          end
      | FailureCleanup error =>
          (* unlinkFiles(run.id).then(() => { send('local-run-error', ...) })
             inside result's .catch; its rejection goes to the last .catch *)
          match o with
          | Fulfilled _ =>
              match execution_error_payload error with
              | Some payload =>
                  let r := assign_error (run s) payload now in
                  (with_chain (with_run s r) (Finished ChainFulfilled),
                   [Send (LocalRunError (consortium_name (consortium s)) r)])
              | None => outer_catch now (TypeError error "message") s
              end
          | Rejected reason => outer_catch now reason s
          end
      | _ => pure s
      end
  | PruneSettled o =>
      match chain s with
      | AwaitingPrune =>
          (* no rejection handler follows pruneImages() *)
          match o with
          | Fulfilled _ => then_start s
          | Rejected reason =>
              pure (with_chain s (Finished (ChainRejected reason)))
          end
      | _ => pure s
      end
  | StartSettled o =>
      match chain s with
      | AwaitingStart =>
          match o with
          | Fulfilled _ =>
              (* .then(({ pipeline, result }) => {
                   pipeline.stateEmitter.on('update', ...);
                   return result.then(...).catch(...); }) *)
              (with_chain (with_subscribed s) AwaitingResult,
               [StateEmitterOn "update"])
          | Rejected reason => outer_catch now reason s
          end
      | _ => pure s
      end
  | StateUpdate data =>
      (* (data) => { send('local-pipeline-state-update', { run, data }) } *)
      if subscribed s
      then (s, [Send (LocalPipelineStateUpdate (run s) data)])
      else pure s
  | ResultSettled o =>
      match chain s with
      | AwaitingResult =>
          match o with
          | Fulfilled results => result_then results s
          | Rejected error => result_catch now error s
          end
      | _ => pure s
      end
  end.

(** The callbacks run one after the other, each with the reading of
    [Date.now()] at that time. *)
Fixpoint run_events (evs : list (Z * event)) (s : state) : effect :=
  match evs with
  | [] => pure s
  | (now, e) :: rest => step s now e >>= run_events rest
  end.

(** A whole invocation of the handler and what followed. *)
Definition start_run (c : Consortium) (files : value) (r : Run)
    (evs : list (Z * event)) : effect :=
  start_pipeline c files r >>= run_events evs.

Definition trace (x : effect) : list action := snd x.

Definition final (x : effect) : state := fst x.

(** ** The session core, [login-init] and [stop-pipeline] *)

(** The client core as far as the handlers see it: who it was configured
    for, and the runs its pipeline engine holds. *)
Record Core : Type := {
  core_userId : string;
  core_appDirectory : string;
  activePipelines : list string
}.

(** The variables of the boot closure: [let initializedCore] and the
    configured [coinstacHome]. *)
Record mainProcess : Type := {
  initializedCore : option Core;
  coinstacHome : string
}.

(** What the promise returned by the [login-init] listener does. *)
Inductive loginResult : Type :=
| LoginResolved            (* Promise.resolve() *)
| LoginConfiguring.        (* waits for configureCore(...) *)

(** [appDirectory || config.get('coinstacHome')]: an absent or empty
    directory is falsy. *)
Definition directory_or_home (appDirectory : option string) (home : string)
  : string :=
  match appDirectory with
  | Some EmptyString | None => home
  | Some d => d
  end.

(** The [login-init] listener. *)
Definition login_init (mp : mainProcess) (userId : string)
    (appDirectory : option string) : mainProcess * list action * loginResult :=
  match initializedCore mp with
  | Some _ => (mp, [], LoginResolved)
  | None =>
      (mp,
       [ConfigureCore userId (directory_or_home appDirectory (coinstacHome mp))],
       LoginConfiguring)
  end.

(** [.then((c) => { initializedCore = c; return upsertCoinstacUserDir(c); })] *)
Definition login_configured (mp : mainProcess) (c : Core)
  : mainProcess * list action :=
  ({| initializedCore := Some c; coinstacHome := coinstacHome mp |},
   [UpsertCoinstacUserDir]).

(** A series of [login-init] requests, each served before the next. *)
Fixpoint login_requests (mp : mainProcess)
    (reqs : list (string * option string))
  : mainProcess * list action * list loginResult :=
  match reqs with
  | [] => (mp, [], [])
  | (userId, dir) :: rest =>
      let '(mp1, a1, r1) := login_init mp userId dir in
      let '(mp2, a2, rs) := login_requests mp1 rest in
      (mp2, a1 ++ a2, r1 :: rs)
  end.

(** How a synchronous call ends. *)
Inductive completion : Type :=
| Returns (v : value)
| Throws (err : value).







(** ** Reading traces and states *)

Definition is_unlink (runId : string) (a : action) : bool :=
  match a with
  | UnlinkFiles r => String.eqb r runId
  | _ => false
  end.

Definition is_start (a : action) : bool :=
  match a with
  | StartPipeline _ _ _ _ _ _ => true
  | _ => false
  end.


Definition is_log (a : action) : bool :=
  match a with
  | LogVerbose _ | LogError _ => true
  | _ => false
  end.

(** Progress forwarded to the window by a stream or engine listener. *)
Definition is_progress (a : action) : bool :=
  match a with
  | Send (LocalPipelineStateUpdate _ _) => true
  | _ => false
  end.

(** The terminal records of a run on the observer channel. *)
Definition is_terminal_record (a : action) : bool :=
  match a with
  | Send (LocalRunError _ _) | Send (LocalRunComplete _ _) => true
  | _ => false
  end.



(** How often [unlinkFiles] was called for a run. *)
Definition unlink_count (runId : string) (tr : list action) : nat :=
  List.length (filter (is_unlink runId) tr).

(** The error payloads of the terminal error records of a trace. *)
Fixpoint error_records (tr : list action) : list (option value) :=
  match tr with
  | [] => []
  | Send (LocalRunError _ r) :: rest => run_error r :: error_records rest
  | _ :: rest => error_records rest
  end.



(** [Promise.all(streamProms)] has settled once the chain has moved past
    the wait for the streams. *)
Definition aggregate_settled (s : state) : bool :=
  match chain s with
  | AwaitingPull | AwaitingStreams => false
  | _ => true
  end.

(** No promise of [streamProms] is still pending. *)
Definition drained (s : state) : bool :=
  negb (existsb is_pending (streamProms s)).

(** The promise [forEach_compStreams] leaves for an entry. *)
Definition initial_promise (st : stream) : promise :=
  match st with
  | Emitter => Pending
  | Plain failure => RejectedWith (VStr (message failure))
  end.

(** The phases in which a call of [unlinkFiles] is outstanding. *)
Definition cleaning (p : phase) : bool :=
  match p with
  | AcquisitionCleanup _ | CompletionCleanup _ | FailureCleanup _ => true
  | _ => false
  end.

Definition is_unlink_settled (e : event) : bool :=
  match e with
  | UnlinkSettled _ => true
  | _ => false
  end.



Definition is_error_record (a : action) : bool :=
  match a with
  | Send (LocalRunError _ _) => true
  | _ => false
  end.

(** ** Callbacks and actions in the order they happen *)















(** ** Sample runs *)

Definition sample_consortium : Consortium :=
  {| consortium_id := "cons-1"; consortium_name := "Consortium" |}.

Definition sample_run : Run :=
  {| run_id := "run-1";
     run_type := "local";
     run_pipelineSteps := VUndefined;
     run_pipelineSnapshot := scenario1_pipeline;
     run_error := None;
     run_results := None;
     run_endDate := None |}.

Definition sample_core : Core :=
  {| core_userId := "author";
     core_appDirectory := "/home/author/.coinstac";
     activePipelines := ["run-1"] |}.

Definition logged_in : mainProcess :=
  {| initializedCore := Some sample_core;
     coinstacHome := "/home/author/.coinstac" |}.


Definition daemon_down : pullFailure :=
  {| message := "connect ENOENT /var/run/docker.sock"; statusCode := 500 |}.

(** The rejection of scenario 3: [{ message: 'boom', input: { x: 1 } }]. *)
Definition boom : value :=
  VObj [("message", VStr "boom"); ("input", VObj [("x", VNum 1)])].

Definition disk_error : value :=
  VObj [("message", VStr "EPERM: operation not permitted, unlink");
        ("stack", VStr "Error: EPERM")].

(** The callbacks of a run with one image whose pull never starts, with
    the cleanup and the prune both succeeding. *)
Definition failed_pull_events : list (Z * event) :=
  [(10%Z, PullSettled (Fulfilled [Plain daemon_down]));
   (11%Z, UnlinkSettled (Fulfilled tt));
   (12%Z, PruneSettled (Fulfilled tt))].

(** The same with a stream that errors while another one is still
    pulling. *)
Definition stream_error_events : list (Z * event) :=
  [(10%Z, PullSettled (Fulfilled [Emitter; Emitter]));
   (11%Z, StreamData 0 "Pulling fs layer");
   (12%Z, StreamError 1 disk_error);
   (13%Z, UnlinkSettled (Fulfilled tt));
   (14%Z, PruneSettled (Fulfilled tt))].

(** A run whose pull succeeds and whose [startPipeline] rejects. *)
Definition start_rejected_events : list (Z * event) :=
  [(10%Z, PullSettled (Fulfilled [Emitter]));
   (11%Z, StreamEnd 0);
   (12%Z, PruneSettled (Fulfilled tt));
   (13%Z, StartSettled (Rejected disk_error))].

(** A run whose pull fails and whose pipeline is then started and
    completes. *)
Definition failed_pull_then_completed_events : list (Z * event) :=
  failed_pull_events
    ++ [(13%Z, StartSettled (Fulfilled tt));
        (14%Z, ResultSettled (Fulfilled (VObj [("ok", VBool true)])));
        (15%Z, UnlinkSettled (Fulfilled tt))].

(** A run whose only pull has succeeded. *)
Definition pulled_events : list (Z * event) :=
  [(10%Z, PullSettled (Fulfilled [Emitter])); (11%Z, StreamEnd 0)].

(** What may still happen after the prune has settled: late data of the
    stream, and an engine that would start and then fail. *)
Definition after_prune_events : list (Z * event) :=
  [(13%Z, StreamData 0 "late");
   (14%Z, StartSettled (Fulfilled tt));
   (15%Z, ResultSettled (Rejected boom))].

(** A run that reached the engine. *)
Definition executing : state :=
  final (start_run sample_consortium VNull sample_run
           (pulled_events
              ++ [(12%Z, PruneSettled (Fulfilled tt));
                  (13%Z, StartSettled (Fulfilled tt))])).

(** Scenario 1: the three pulls (imgA is pulled twice) succeed, the engine
    starts, reports once and completes; the cleanup resolves. *)
Definition scenario1_events : list (Z * event) :=
  [(10%Z, PullSettled (Fulfilled [Emitter; Emitter; Emitter]));
   (11%Z, StreamData 1 "Downloading");
   (12%Z, StreamEnd 1);
   (13%Z, StreamEnd 0);
   (14%Z, StreamEnd 2);
   (15%Z, PruneSettled (Fulfilled tt));
   (16%Z, StartSettled (Fulfilled tt));
   (17%Z, StateUpdate (VStr "running"));
   (18%Z, ResultSettled (Fulfilled (VObj [("ok", VBool true)])));
   (19%Z, UnlinkSettled (Fulfilled tt))].


(** ** How far the chain has come *)

(** The place of a phase along the promise chain of [start-pipeline]. *)
Definition rank (p : phase) : nat :=
  match p with
  | AwaitingPull => 0
  | AwaitingStreams => 1
  | AcquisitionCleanup _ => 2
  | AwaitingPrune => 3
  | AwaitingStart => 4
  | AwaitingResult => 5
  | CompletionCleanup _ => 6
  | FailureCleanup _ => 7
  | Finished _ => 8
  end.

Definition is_save (a : action) : bool :=
  match a with
  | Send (SaveLocalRun _) => true
  | _ => false
  end.

Definition is_pull (a : action) : bool :=
  match a with
  | PullImagesFromList _ => true
  | _ => false
  end.

Definition is_prune (a : action) : bool :=
  match a with
  | PruneImages => true
  | _ => false
  end.


Definition count (P : action -> bool) (tr : list action) : nat :=
  List.length (filter P tr).

(** The calls that name a run name this one. *)
Definition for_run (runId : string) (a : action) : bool :=
  match a with
  | UnlinkFiles r => String.eqb r runId
  | StartPipeline _ _ _ _ r _ => String.eqb r runId
  | _ => true
  end.

Definition has_error (r : Run) : bool :=
  match run_error r with
  | Some _ => true
  | None => false
  end.

(** A message about the run carries an [error] property. *)
Definition carries_error (a : action) : bool :=
  match a with
  | Send (SaveLocalRun r) | Send (LocalPipelineStateUpdate r _)
  | Send (LocalRunError _ r) | Send (LocalRunComplete _ r) => has_error r
  | _ => true
  end.

(** Every action that comes after an action selected by [mark] satisfies
    [P]; [seen] tells whether a marked action came before the trace. *)
Fixpoint after_mark (mark P : action -> bool) (seen : bool)
    (tr : list action) : bool :=
  match tr with
  | [] => true
  | a :: rest =>
      (if seen then P a else true)
      && after_mark mark P (seen || mark a) rest
  end.

Definition is_emitter (st : stream) : bool :=
  match st with
  | Emitter => true
  | Plain _ => false
  end.

(** The ['end'] events of the streams named by [ends], each with the
    reading of the clock at that time. *)
Definition end_events (ends : list (Z * nat)) : list (Z * event) :=
  map (fun ti => (fst ti, StreamEnd (snd ti))) ends.

Definition b2n (b : bool) : nat := if b then 1 else 0.

(** What [forEach_compStreams] does: a first state update and the
    registration of listeners. *)
Definition is_setup (a : action) : bool :=
  match a with
  | Send (LocalPipelineStateUpdate _ _) | StreamOn _ _ => true
  | _ => false
  end.

(** ** The docker queries *)

(** [(err) => { logger.error(err); mainWindow.webContents.send(
    'docker-error', { err: { message: err.message, stack: err.stack } }) }]:
    the rejection handler of [get-all-images] and [get-status].  It gives
    what the handler did and how the promise of the [.catch] settles. *)
Definition report_docker_error (err : value) : list action * outcome value :=
  match get_prop err "message", get_prop err "stack" with
  | Some m, Some st =>
      ([LogError err;
        Send (DockerError (VObj [("message", m); ("stack", st)]))],
       Fulfilled VUndefined)
  | _, _ => ([LogError err], Rejected (TypeError err "message"))
  end.

(** The [get-all-images] and [get-status] listeners:
    [query().then((data) => data).catch((err) => { ... })], from the
    settling of the query on. *)
Definition docker_query (o : outcome value) : list action * outcome value :=
  match o with
  | Fulfilled data => ([], Fulfilled data)
  | Rejected err => report_docker_error err
  end.

(** ** The [download-comps] handler *)

(** [params]: the computations to pull and, when the pull is made for a
    consortium, its id. *)
Record downloadParams : Type := {
  params_computations : list value;
  params_consortiumId : option string
}.

(** One entry of the [compStreams] of [pullImages]. *)
Record compStream : Type := {
  compId : string;
  compName : string;
  comp_stream : stream
}.

Inductive downloadEvent : Type :=
| PullImagesSettled (o : outcome (list compStream))  (* pullImages(...) *)
| CompData (i : nat) (data : string)                 (* stream i emits 'data' *)
| CompEnd (i : nat)                                  (* stream i emits 'end' *)
| CompError (i : nat) (err : value).                 (* stream i emits 'error' *)

(** What the handler does: [DockerOut output (Some (compId, compName))] is
    [send('docker-out', { output, compId, compName })] and
    [DockerOut output None] is [send('docker-out', { output })]; an
    exception that leaves a listener is recorded as [ListenerThrew]. *)
Inductive downloadAction : Type :=
| PullImages (computations : list value)
| CompStreamOn (i : nat) (evt : string)
| DockerOut (output : list value) (tag : option (string * string))
| DockerPullComplete (consortiumId : string)
| ListenerThrew (err : value).

(** The closure of one invocation: [params], the streams once they are
    there, the counter [streamsComplete], and how the promise returned to
    the renderer has settled. *)
Record downloadState : Type := {
  dl_params : downloadParams;
  dl_streams : list compStream;
  streamsComplete : nat;
  dl_promise : option (outcome value)
}.

(** [{ message, status: 'error', statusCode, isErr: true }] *)
Definition error_entry (msg code : value) : value :=
  VObj [("message", msg); ("status", VStr "error");
        ("statusCode", code); ("isErr", VBool true)].

(** [{ id: `${compId}-complete`, status: 'complete' }] *)
Definition complete_entry (id : string) : value :=
  VObj [("id", VStr (String.append id "-complete"));
        ("status", VStr "complete")].

(** [{ message: err.json, status: 'error', statusCode: err.statusCode,
       isErr: true }]; reading [err.json] throws for [undefined]. *)
Definition json_error_entry (err : value) : option value :=
  match get_prop err "json", get_prop err "statusCode" with
  | Some j, Some code => Some (error_entry j code)
  | _, _ => None
  end.

Definition CR : Ascii.ascii := Ascii.ascii_of_nat 13.

Definition LF : Ascii.ascii := Ascii.ascii_of_nat 10.

Definition CRLF : string := String CR (String LF EmptyString).

(** [s.split('\r\n')], with [cur] the segment read so far. *)
Fixpoint split_crlf (cur s : string) : list string :=
  match s with
  | EmptyString => [cur]
  | String c rest =>
      match rest with
      | String c' rest' =>
          if Ascii.eqb c CR && Ascii.eqb c' LF
          then cur :: split_crlf EmptyString rest'
          else split_crlf (String.append cur (String c EmptyString)) rest
      | EmptyString =>
          split_crlf (String.append cur (String c EmptyString)) rest
      end
  end.

(** Whether a string holds the separator CR LF. *)
Fixpoint has_crlf (s : string) : bool :=
  match s with
  | EmptyString => false
  | String c rest =>
      match rest with
      | String c' _ => (Ascii.eqb c CR && Ascii.eqb c' LF) || has_crlf rest
      | EmptyString => false
      end
  end.

(** lodash's [compact] on strings: the empty string is the falsy one. *)
Definition compact (lines : list string) : list string :=
  filter (fun l => negb (String.eqb l EmptyString)) lines.

(** [output.map(JSON.parse)]: the lines are parsed from left to right and
    the first exception ends the [map]. *)
Fixpoint parse_all (JSON_parse : string -> completion) (lines : list string)
  : list value + value :=
  match lines with
  | [] => inl []
  | l :: rest =>
      match JSON_parse l with
      | Throws err => inr err
      | Returns v =>
          match parse_all JSON_parse rest with
          | inl vs => inl (v :: vs)
          | inr err => inr err
          end
      end
  end.

(** The body of [compStreams.forEach] of [download-comps]. *)
Fixpoint forEach_downloads (i : nat) (cs : list compStream)
  : list downloadAction :=
  match cs with
  | [] => []
  | entry :: rest =>
      match comp_stream entry with
      | Plain failure =>
          [DockerOut [error_entry (VStr (message failure))
                                  (VNum (statusCode failure))]
                     (Some (compId entry, compName entry))]
      | Emitter =>
          [CompStreamOn i "data"; CompStreamOn i "end"; CompStreamOn i "error"]
      end ++ forEach_downloads (S i) rest
  end.

(** The stream of entry [i], when it has listeners. *)
Definition download_listener (s : downloadState) (i : nat)
  : option compStream :=
  match nth_error (dl_streams s) i with
  | Some entry =>
      match comp_stream entry with
      | Emitter => Some entry
      | Plain _ => None
      end
  | None => None
  end.

(** [params.consortiumId &&]: an absent or empty id is falsy. *)
Definition truthy_id (id : option string) : option string :=
  match id with
  | Some (String c rest) => Some (String c rest)
  | _ => None
  end.

Definition with_download (s : downloadState) (cs : list compStream)
    (n : nat) (p : option (outcome value)) : downloadState :=
  {| dl_params := dl_params s; dl_streams := cs;
     streamsComplete := n; dl_promise := p |}.

(** The synchronous part of the handler: the call of [pullImages]. *)
Definition download_comps (params : downloadParams)
  : downloadState * list downloadAction :=
  ({| dl_params := params; dl_streams := []; streamsComplete := 0;
      dl_promise := None |},
   [PullImages (params_computations params)]).

(** One callback of [download-comps]. *)
Definition download_step (JSON_parse : string -> completion)
    (s : downloadState) (e : downloadEvent)
  : downloadState * list downloadAction :=
  match e with
  | PullImagesSettled o =>
      match dl_promise s with
      | None =>
          match o with
          | Fulfilled cs =>
              (* .then((compStreams) => { let streamsComplete = 0;
                                          compStreams.forEach(...) }) *)
              (with_download s cs 0 (Some (Fulfilled VUndefined)),
               forEach_downloads 0 cs)
          | Rejected err =>
              (* .catch((err) => { send('docker-out', { output }) }) *)
              match json_error_entry err with
              | Some entry =>
                  (with_download s [] 0 (Some (Fulfilled VUndefined)),
                   [DockerOut [entry] None])
              | None =>
                  (with_download s [] 0
                     (Some (Rejected (TypeError err "json"))),
                   [])
              end
          end
      | Some _ => (s, [])
      end
  | CompData i data =>
      match download_listener s i with
      | Some entry =>
          (* output = compact(data.toString().split('\r\n'));
             output = output.map(JSON.parse); send('docker-out', ...) *)
          match parse_all JSON_parse (compact (split_crlf EmptyString data)) with
          | inl output =>
              (s, [DockerOut output (Some (compId entry, compName entry))])
          | inr err => (s, [ListenerThrew err])
          end
      | None => (s, [])
      end
  | CompEnd i =>
      match download_listener s i with
      | Some entry =>
          (* send('docker-out', ...complete); streamsComplete += 1;
             if (params.consortiumId &&
                 streamsComplete === params.computations.length) ... *)
          let n := S (streamsComplete s) in
          (with_download s (dl_streams s) n (dl_promise s),
           DockerOut [complete_entry (compId entry)]
                     (Some (compId entry, compName entry))
             :: match truthy_id (params_consortiumId (dl_params s)) with
                | Some id =>
                    if Nat.eqb n (List.length (params_computations (dl_params s)))
                    then [DockerPullComplete id] else []
                | None => []
                end)
      | None => (s, [])
      end
  | CompError i err =>
      match download_listener s i with
      | Some entry =>
          match json_error_entry err with
          | Some e' =>
              (s, [DockerOut [e'] (Some (compId entry, compName entry))])
          | None => (s, [ListenerThrew (TypeError err "json")])
          end
      | None => (s, [])
      end
  end.

Fixpoint download_events (JSON_parse : string -> completion)
    (evs : list downloadEvent) (s : downloadState)
  : downloadState * list downloadAction :=
  match evs with
  | [] => (s, [])
  | e :: rest =>
      let '(s1, a1) := download_step JSON_parse s e in
      let '(s2, a2) := download_events JSON_parse rest s1 in
      (s2, a1 ++ a2)
  end.

(** A whole invocation of [download-comps] and what followed. *)
Definition download_run (JSON_parse : string -> completion)
    (params : downloadParams) (evs : list downloadEvent)
  : downloadState * list downloadAction :=
  let '(s0, a0) := download_comps params in
  let '(s1, a1) := download_events JSON_parse evs s0 in
  (s1, a0 ++ a1).

Definition is_pull_complete (a : downloadAction) : bool :=
  match a with
  | DockerPullComplete _ => true
  | _ => false
  end.

Definition is_docker_out (a : downloadAction) : bool :=
  match a with
  | DockerOut _ _ => true
  | _ => false
  end.

(** The streams named by the ['end'] events of a sequence. *)
Fixpoint ended_streams (evs : list downloadEvent) : list nat :=
  match evs with
  | [] => []
  | CompEnd i :: rest => i :: ended_streams rest
  | _ :: rest => ended_streams rest
  end.

Definition has_started (entry : compStream) : bool :=
  is_emitter (comp_stream entry).

(** How often [docker-pull-complete] was sent. *)
Definition pull_completes (tr : list downloadAction) : nat :=
  List.length (filter is_pull_complete tr).

(** The non-empty lines of a data chunk, as handed to [JSON.parse]. *)
Definition chunk_lines (data : string) : list string :=
  compact (split_crlf EmptyString data).

(** Entry [i] of [cs] is a stream with listeners. *)
Definition listens (cs : list compStream) (i : nat) : bool :=
  match nth_error cs i with
  | Some entry => has_started entry
  | None => false
  end.

(** ** More sample data *)


Definition logged_out : mainProcess :=
  {| initializedCore := None; coinstacHome := "/home/author/.coinstac" |}.

(** The three pulls of scenario 1 ending in the order 1, 0, 2. *)
Definition scenario1_ends : list (Z * nat) :=
  [(12%Z, 1); (13%Z, 0); (14%Z, 2)].

(** A stand-in for [JSON.parse] that accepts the lines that open a
    brace. *)
Definition braces_only (line : string) : completion :=
  if String.prefix "{" line
  then Returns (VObj [("status", VStr line)])
  else Throws (VObj [("name", VStr "SyntaxError")]).

Definition two_computations : downloadParams :=
  {| params_computations := [VStr "imgA"; VStr "imgB"];
     params_consortiumId := Some "cons-1" |}.

(** The answer of [pullImages] when the second pull never started. *)
Definition second_pull_failed : list compStream :=
  [{| compId := "comp-a"; compName := "imgA"; comp_stream := Emitter |};
   {| compId := "comp-b"; compName := "imgB";
      comp_stream := Plain daemon_down |}].

(** The closure of [download-comps] once [second_pull_failed] arrived. *)
Definition downloading_state : downloadState :=
  fst (download_run braces_only two_computations
         [PullImagesSettled (Fulfilled second_pull_failed)]).

(** Two progress lines with an empty line between them. *)
Definition two_lines : string :=
  String.append "{a}" (String.append CRLF (String.append CRLF "{b}")).

(** How many terminal records, and how many cleanup calls, a chain that
    stands at a phase can have made at most. *)
Definition records_bound (p : phase) : nat :=
  match p with
  | AwaitingPull | AwaitingStreams | AcquisitionCleanup _ => 0
  | Finished _ => 2
  | _ => 1
  end.

Definition cleanup_bound (p : phase) : nat :=
  match p with
  | AwaitingPull | AwaitingStreams => 0
  | AcquisitionCleanup _ | AwaitingPrune | AwaitingStart | AwaitingResult => 1
  | CompletionCleanup _ => 2
  | FailureCleanup _ | Finished _ => 3
  end.

Definition is_any_unlink (a : action) : bool :=
  match a with
  | UnlinkFiles _ => true
  | _ => false
  end.

(** The answer of [pullImages] when both pulls started. *)
Definition both_started : list compStream :=
  [{| compId := "comp-a"; compName := "imgA"; comp_stream := Emitter |};
   {| compId := "comp-b"; compName := "imgB"; comp_stream := Emitter |}].

(** * Properties *)

Ltac break_match :=
  repeat (simpl;
          match goal with
          | |- context [match ?x with _ => _ end] => destruct x eqn:?
          end).

Ltac invert_pairs :=
  repeat match goal with
    | H : (_, _) = (_, _) |- _ => inversion H; subst; clear H
    end.

Ltac unfold_handlers :=
  unfold step, acquisition_catch, then_prune, then_start, result_catch,
    result_then, outer_catch, andThen, emit, pure, final, trace.

Ltac use_equations :=
  repeat match goal with
    | H : chain ?s = _ |- context [chain ?s] => rewrite H
    | H : get_prop ?v ?k = _, H' : context [get_prop ?v ?k] |- _ =>
        rewrite H in H'
    end.

(** ** Sequencing *)

Lemma trace_andThen (x : effect) (k : state -> effect) :
  trace (x >>= k) = trace x ++ trace (k (final x)).
Proof.
  destruct x as [s a]; unfold andThen, trace, final; simpl.
  destruct (k s); reflexivity.
Qed.

Lemma final_andThen (x : effect) (k : state -> effect) :
  final (x >>= k) = final (k (final x)).
Proof.
  destruct x as [s a]; unfold andThen, final; simpl.
  destruct (k s); reflexivity.
Qed.

Lemma run_events_app (evs1 evs2 : list (Z * event)) (s : state) :
  run_events (evs1 ++ evs2) s = run_events evs1 s >>= run_events evs2.
Proof.
  revert s; induction evs1 as [|[now e] evs1 IH]; intros s; simpl.
  - unfold pure, andThen. destruct (run_events evs2 s); reflexivity.
  - destruct (step s now e) as [s1 a1]; unfold andThen at 1 3; simpl.
    rewrite IH. unfold andThen.
    destruct (run_events evs1 s1) as [s2 a2].
    destruct (run_events evs2 s2) as [s3 a3].
    rewrite app_assoc; reflexivity.
Qed.

Lemma start_run_app c files r (evs1 evs2 : list (Z * event)) :
  start_run c files r (evs1 ++ evs2)
  = start_run c files r evs1 >>= run_events evs2.
Proof.
  unfold start_run.
  destruct (start_pipeline c files r) as [s0 a0]; unfold andThen at 1 3.
  rewrite run_events_app; unfold andThen.
  destruct (run_events evs1 s0) as [s1 a1].
  destruct (run_events evs2 s1) as [s2 a2].
  rewrite app_assoc; reflexivity.
Qed.

(** ** A run that completes *)

(** On scenario 1 the handler saves the run, pulls, forwards progress,
    prunes once, starts the engine, forwards its update, cleans up once and
    reports the completed run with its results. *)
Example scenario1_completes :
  let x := start_run sample_consortium VNull sample_run scenario1_events in
  chain (final x) = Finished ChainFulfilled
  /\ map is_progress (trace x)
     = [false; false;
        true; false; false; false;
        true; false; false; false;
        true; false; false; false;
        true;
        false; false; false; false; false;
        true;
        false; false; false; false]
  /\ List.length (filter is_start (trace x)) = 1
  /\ unlink_count "run-1" (trace x) = 1
  /\ skipn 23 (trace x)
     = [UnlinkFiles "run-1";
        Send (LocalRunComplete "Consortium"
                (assign_results sample_run (VObj [("ok", VBool true)]) 19%Z))].
Proof. repeat split. Qed.

(** ** The image list *)

Lemma fold_left_concat (ls : list (list string)) (acc : list string) :
  fold_left (fun acc val => acc ++ val) ls acc = acc ++ List.concat ls.
Proof.
  revert acc; induction ls as [|l ls IH]; intros acc; simpl.
  - now rewrite app_nil_r.
  - rewrite IH, app_assoc; reflexivity.
Qed.

Lemma count_occ_concat (img : string) (ls : list (list string)) :
  count_occ string_dec (List.concat ls) img
  = list_sum (map (fun l => count_occ string_dec l img) ls).
Proof.
  induction ls as [|l ls IH]; simpl; [reflexivity|].
  now rewrite count_occ_app, IH.
Qed.

Lemma existsb_eqb_In (x : string) (l : list string) :
  existsb (String.eqb x) l = true <-> In x l.
Proof.
  rewrite existsb_exists; split.
  - intros [y [Hy Heq]]. apply String.eqb_eq in Heq; now subst.
  - intros H; exists x; split; [assumption | apply String.eqb_refl].
Qed.

Lemma first_occurrences_In (x : string) (l seen : list string) :
  In x (first_occurrences seen l) <-> In x l /\ ~ In x seen.
Proof.
  revert seen; induction l as [|y l IH]; intros seen; simpl.
  - tauto.
  - destruct (existsb (String.eqb y) seen) eqn:E.
    + apply existsb_eqb_In in E. rewrite IH.
      split; [tauto|]. intros [[->|H] Hn]; [contradiction | tauto].
    + assert (Hy : ~ In y seen).
      { intros H; apply existsb_eqb_In in H; congruence. }
      simpl; rewrite IH; simpl.
      destruct (string_dec y x) as [->|Hne]; [tauto|].
      split; [tauto|]. intros [[H|H] Hn]; [contradiction|]. right; tauto.
Qed.

Lemma first_occurrences_NoDup (l seen : list string) :
  NoDup (first_occurrences seen l).
Proof.
  revert seen; induction l as [|y l IH]; intros seen; simpl.
  - constructor.
  - destruct (existsb (String.eqb y) seen); [apply IH|].
    constructor; [|apply IH].
    rewrite first_occurrences_In; simpl; tauto.
Qed.

(** C3, as the code has it: the image list handed to the docker manager is
    the concatenation, in step order, of the image references of each
    step's computations.  Nothing is removed: a reference occurs in the
    list as many times as the steps name it.  The deduplicated sequence of
    the specification is what is left when repeated occurrences are
    dropped; the two lists name the same images. *)
Theorem C3_image_list_keeps_every_reference (pipeline : Pipeline) :
  computationImageList pipeline
    = List.concat (map step_images (pipeline_steps pipeline))
  /\ (forall img,
        count_occ string_dec (computationImageList pipeline) img
        = list_sum (map (fun st => count_occ string_dec (step_images st) img)
                        (pipeline_steps pipeline)))
  /\ spec_image_list pipeline
       = first_occurrences [] (computationImageList pipeline)
  /\ NoDup (spec_image_list pipeline)
  /\ (forall img,
        In img (computationImageList pipeline)
        <-> In img (spec_image_list pipeline)).
Proof.
  assert (E : computationImageList pipeline
              = List.concat (map step_images (pipeline_steps pipeline))).
  { unfold computationImageList. rewrite fold_left_concat. reflexivity. }
  split; [exact E|]. split.
  - intros img. rewrite E, count_occ_concat, map_map. reflexivity.
  - unfold spec_image_list. rewrite <- E. split; [reflexivity|]. split.
    + apply first_occurrences_NoDup.
    + intros img. rewrite first_occurrences_In. simpl. tauto.
Qed.

(** C3, as the claim states it, fails on scenario 1: the steps name imgA,
    imgB, imgA, and the computed list holds imgA twice. *)
Lemma C3_duplicate_reference_kept :
  computationImageList scenario1_pipeline = ["imgA"; "imgB"; "imgA"]
  /\ count_occ string_dec (computationImageList scenario1_pipeline) "imgA" = 2
  /\ ~ NoDup (computationImageList scenario1_pipeline)
  /\ computationImageList scenario1_pipeline
       <> spec_image_list scenario1_pipeline.
Proof.
  split; [reflexivity|]. split; [reflexivity|]. split.
  - intros H. change (NoDup ["imgA"; "imgB"; "imgA"]) in H.
    inversion H as [|x l Hn _]; subst. apply Hn. simpl; auto.
  - discriminate.
Qed.

(** ** Session initialisation *)

(** C9: once the session core is initialised, [login-init] does no
    configuration work, leaves the main process (and so the core it holds)
    as it is, and resolves; this holds for any number of repeated
    requests. *)
Theorem C9_login_init_idempotent (mp : mainProcess) (core : Core)
    (reqs : list (string * option string)) :
  initializedCore mp = Some core ->
  login_requests mp reqs = (mp, [], map (fun _ => LoginResolved) reqs).
Proof.
  intros Hcore. induction reqs as [|[userId dir] reqs IH]; simpl.
  - reflexivity.
  - unfold login_init. rewrite Hcore. rewrite IH. reflexivity.
Qed.

Lemma C9_login_init_idempotent_witness :
  login_requests logged_in [("author", None); ("other", Some "/tmp/x")]
  = (logged_in, [], [LoginResolved; LoginResolved]).
Proof.
  apply (C9_login_init_idempotent logged_in sample_core
           [("author", None); ("other", Some "/tmp/x")]).
  reflexivity.
Defined.

(** ** Stop requests *)



(** ** Runs whose acquisition fails *)

(** C1 on the code: the handler of a failed acquisition resolves once the
    cleanup has, so the chain goes on to the prune and to [startPipeline].
    For every run that is in the failure handler of the acquisition with a
    reason whose properties can be read (a pull that never started or a
    stream that errored), once the cleanup and the prune have resolved the
    trace holds the error record of the run and, after it, the start of the
    pipeline engine, and the chain waits for that start. *)
Theorem C1_engine_started_after_failed_pull (c : Consortium) (files : value)
    (r : Run) (evs : list (Z * event)) (err : value) (t1 t2 : Z) :
  chain (final (start_run c files r evs)) = AcquisitionCleanup err ->
  error_payload err <> None ->
  let x := start_run c files r
             (evs ++ [(t1, UnlinkSettled (Fulfilled tt));
                      (t2, PruneSettled (Fulfilled tt))]) in
  existsb is_terminal_record (trace x) = true
  /\ existsb is_start (trace x) = true
  /\ chain (final x) = AwaitingStart.
Proof.
  intros Hc Hread x. unfold x.
  rewrite start_run_app, trace_andThen, final_andThen, !existsb_app.
  set (s := final (start_run c files r evs)) in *.
  destruct (error_payload err) as [payload|] eqn:Ep; [|congruence].
  assert (E : run_events [(t1, UnlinkSettled (Fulfilled tt));
                          (t2, PruneSettled (Fulfilled tt))] s
              = (with_chain
                   (with_run s (assign_error (run s) payload t1))
                   AwaitingStart,
                 [Send (LocalRunError (consortium_name (consortium s))
                          (assign_error (run s) payload t1));
                  PruneImages]
                 ++ snd (then_start
                           (with_run s (assign_error (run s) payload t1))))).
  { unfold run_events, step at 1. rewrite Hc, Ep. reflexivity. }
  rewrite E. simpl. rewrite !orb_true_r. auto.
Qed.

Lemma C1_engine_started_after_failed_pull_witness :
  (let x := start_run sample_consortium VNull sample_run failed_pull_events in
   existsb is_terminal_record (trace x) = true
   /\ existsb is_start (trace x) = true
   /\ chain (final x) = AwaitingStart)
  /\ (let x := start_run sample_consortium VNull sample_run
                 stream_error_events in
      existsb is_terminal_record (trace x) = true
      /\ existsb is_start (trace x) = true
      /\ chain (final x) = AwaitingStart).
Proof.
  split.
  - apply (C1_engine_started_after_failed_pull
             sample_consortium VNull sample_run
             (firstn 1 failed_pull_events)
             (VStr (message daemon_down)) 11%Z 12%Z).
    + reflexivity.
    + discriminate.
  - apply (C1_engine_started_after_failed_pull
             sample_consortium VNull sample_run
             (firstn 3 stream_error_events) disk_error 13%Z 14%Z).
    + reflexivity.
    + discriminate.
Defined.

(** ** Cleanup counts *)

(** C2 on the code: when [startPipeline] rejects, the error record of the
    run is sent and [unlinkFiles] is never called; when a pull fails and
    the pipeline is started all the same, [unlinkFiles] is called twice
    for the one run. *)
Theorem C2_cleanup_not_exactly_once (c : Consortium) (files : value)
    (r : Run) :
  let rejected := start_run c files r start_rejected_events in
  let twice := start_run c files r failed_pull_then_completed_events in
  chain (final rejected) = Finished ChainFulfilled
  /\ existsb is_terminal_record (trace rejected) = true
  /\ unlink_count (run_id r) (trace rejected) = 0
  /\ existsb is_terminal_record (trace twice) = true
  /\ unlink_count (run_id r) (trace twice) = 2.
Proof.
  destruct r as [rid rtype rsteps rsnapshot rerror rresults rend].
  cbv -[String.eqb]. rewrite ?String.eqb_refl.
  destruct (String.eqb rtype "local");
    rewrite ?String.eqb_refl; repeat split.
Qed.

(** ** Once the chain has settled *)

Lemma step_finished (s : state) (now : Z) (e : event) (o : settled) :
  chain s = Finished o ->
  chain (final (step s now e)) = Finished o
  /\ forallb is_progress (trace (step s now e)) = true.
Proof.
  intros H. destruct e; unfold step; simpl; rewrite ?H;
    break_match; simpl; rewrite ?H; auto; congruence.
Qed.

Lemma run_events_finished (evs : list (Z * event)) (s : state) (o : settled) :
  chain s = Finished o ->
  chain (final (run_events evs s)) = Finished o
  /\ forallb is_progress (trace (run_events evs s)) = true.
Proof.
  revert s; induction evs as [|[now e] evs IH]; intros s H; simpl.
  - auto.
  - destruct (step_finished s now e o H) as [Hc Ht].
    destruct (IH _ Hc) as [Hc' Ht'].
    rewrite final_andThen, trace_andThen, forallb_app. 
    rewrite Hc', Ht, Ht'. auto.
Qed.

(** ** While a cleanup is awaited *)

(** While a cleanup is awaited, any other callback leaves the chain, the
    run and the consortium alone and at most forwards progress. *)
Lemma step_while_cleaning (s : state) (now : Z) (e : event) (p : phase) :
  chain s = p ->
  cleaning p = true ->
  is_unlink_settled e = false ->
  let x := step s now e in
  chain (final x) = p
  /\ run (final x) = run s
  /\ consortium (final x) = consortium s
  /\ forallb is_progress (trace x) = true.
Proof.
  intros H Hp He. subst p.
  destruct e; try discriminate He; unfold_handlers;
    destruct (chain s) eqn:Hc; try discriminate Hp;
    break_match; simpl in *; rewrite ?Hc; repeat split; auto; congruence.
Qed.

Lemma run_events_while_cleaning (evs : list (Z * event)) (s : state)
    (p : phase) :
  chain s = p ->
  cleaning p = true ->
  Forall (fun te => is_unlink_settled (snd te) = false) evs ->
  let x := run_events evs s in
  chain (final x) = p
  /\ run (final x) = run s
  /\ consortium (final x) = consortium s
  /\ forallb is_progress (trace x) = true.
Proof.
  revert s; induction evs as [|[now e] evs IH]; intros s H Hp Hall; simpl.
  - auto.
  - inversion Hall as [|te tes He Hrest]; subst; simpl in He.
    destruct (step_while_cleaning s now e _ eq_refl Hp He)
      as [Hc [Hr [Hn Ht]]].
    destruct (IH _ Hc Hp Hrest) as [Hc' [Hr' [Hn' Ht']]].
    rewrite final_andThen, trace_andThen, forallb_app.
    rewrite Hc', Hr', Hn', Ht, Ht'. auto.
Qed.

Lemma progress_is_no_record (tr : list action) :
  forallb is_progress tr = true -> filter is_terminal_record tr = [].
Proof.
  induction tr as [|a tr IH]; simpl; [reflexivity|].
  intros H. apply andb_prop in H. destruct H as [Ha Htr].
  destruct a as [[]| | | | | | | | | | | |]; simpl in *;
    try discriminate Ha; auto.
Qed.

(** The error records of a trace are those of its terminal records. *)
Lemma error_records_filter (tr : list action) :
  error_records (filter is_terminal_record tr) = error_records tr.
Proof.
  induction tr as [|a tr IH]; simpl; [reflexivity|].
  destruct a as [[]| | | | | | | | | | | |]; simpl; rewrite ?IH; reflexivity.
Qed.

(** ** A failing prune *)

(** C6, as the code has it: the promise of [pruneImages] has no rejection
    handler of its own.  When it rejects, nothing is logged or sent, the
    chain of the handler ends rejected with the reason of the prune, and
    whatever happens afterwards the pipeline engine is not started and no
    error record of the run reaches the window: the listeners only keep
    forwarding progress. *)
Theorem C6_prune_rejection_ends_chain (s : state) (now : Z) (reason : value)
    (evs : list (Z * event)) :
  chain s = AwaitingPrune ->
  let rejected := step s now (PruneSettled (Rejected reason)) in
  let later := run_events evs (final rejected) in
  trace rejected = []
  /\ chain (final rejected) = Finished (ChainRejected reason)
  /\ chain (final later) = Finished (ChainRejected reason)
  /\ existsb is_start (trace later) = false
  /\ existsb is_terminal_record (trace later) = false
  /\ forallb is_progress (trace later) = true.
Proof.
  intros H rejected later.
  assert (E : rejected = pure (with_chain s (Finished (ChainRejected reason)))).
  { unfold rejected, step. rewrite H. reflexivity. }
  assert (Hc : chain (final rejected) = Finished (ChainRejected reason)).
  { rewrite E. reflexivity. }
  destruct (run_events_finished evs (final rejected) _ Hc) as [Hl Hp].
  fold later in Hl, Hp.
  split; [rewrite E; reflexivity|]. split; [exact Hc|]. split; [exact Hl|].
  assert (Hnone : forall P : action -> bool,
             (forall a, is_progress a = true -> P a = false) ->
             existsb P (trace later) = false).
  { intros P HP. rewrite forallb_forall in Hp.
    destruct (existsb P (trace later)) eqn:Ex; [|reflexivity].
    apply existsb_exists in Ex. destruct Ex as [a [Ha HPa]].
    rewrite (HP a (Hp a Ha)) in HPa. discriminate. }
  split; [|split; [|exact Hp]]; apply Hnone;
    intros [[]| | | | | | | | | | | |]; simpl; congruence.
Qed.

Lemma C6_prune_rejection_ends_chain_witness :
  let s := final (start_run sample_consortium VNull sample_run pulled_events) in
  let rejected := step s 12%Z (PruneSettled (Rejected disk_error)) in
  let later := run_events after_prune_events (final rejected) in
  trace rejected = []
  /\ chain (final rejected) = Finished (ChainRejected disk_error)
  /\ chain (final later) = Finished (ChainRejected disk_error)
  /\ existsb is_start (trace later) = false
  /\ existsb is_terminal_record (trace later) = false
  /\ forallb is_progress (trace later) = true.
Proof.
  apply (C6_prune_rejection_ends_chain
           (final (start_run sample_consortium VNull sample_run pulled_events))
           12%Z disk_error after_prune_events).
  reflexivity.
Defined.

(** C6, as the claim states it, fails on a run that pulled its image: the
    rejecting prune is not logged and the pipeline engine is never
    started. *)
Lemma C6_failing_prune_blocks_the_run :
  let x := start_run sample_consortium VNull sample_run
             (pulled_events
                ++ [(12%Z, PruneSettled (Rejected disk_error))]
                ++ after_prune_events) in
  existsb is_start (trace x) = false
  /\ existsb is_log (trace x) = false
  /\ chain (final x) = Finished (ChainRejected disk_error).
Proof. repeat split. Qed.

(** ** The aggregate of the pulls *)

Lemma settle_other (f : promise -> promise) (ps : list promise) (i j : nat) :
  j <> i -> nth_error (settle i f ps) j = nth_error ps j.
Proof.
  revert i j; induction ps as [|p ps IH]; intros [|i] [|j] H; simpl;
    try reflexivity; try congruence.
  apply IH. congruence.
Qed.

(** Nothing removes a listener: past the pull, [compStreams] stays. *)
Lemma step_keeps_listeners (s : state) (now : Z) (e : event) :
  chain s <> AwaitingPull ->
  compStreams (final (step s now e)) = compStreams s
  /\ chain (final (step s now e)) <> AwaitingPull.
Proof.
  intros H. destruct e; unfold_handlers; break_match; simpl in *;
    invert_pairs; simpl; try (exfalso; congruence);
    split; solve [reflexivity | congruence].
Qed.

Lemma run_events_keeps_listeners (evs : list (Z * event)) (s : state) :
  chain s <> AwaitingPull ->
  compStreams (final (run_events evs s)) = compStreams s.
Proof.
  revert s; induction evs as [|[now e] evs IH]; intros s H; simpl.
  - reflexivity.
  - destruct (step_keeps_listeners s now e H) as [Hs Hc].
    rewrite final_andThen, IH; assumption.
Qed.

(** C4, as the code has it: while the aggregate is awaited, the first
    stream error rejects it with that error and the handler of the failure
    starts the cleanup in the same turn, without waiting for the other
    pulls, whose promises are left as they were.  The aggregate passes on
    to the prune only when every promise is resolved.  No listener is ever
    removed: whatever follows, every stream keeps its listeners and its
    data is still forwarded to the window. *)
Theorem C4_first_failure_settles_aggregate (s : state) (now : Z) (i : nat)
    (err : value) (evs : list (Z * event)) :
  chain s = AwaitingStreams ->
  listening s i = true ->
  nth_error (streamProms s) i = Some Pending ->
  let failed := step s now (StreamError i err) in
  let later := final (run_events evs (final failed)) in
  chain (final failed) = AcquisitionCleanup err
  /\ trace failed = [UnlinkFiles (run_id (run s))]
  /\ (forall j, j <> i ->
        nth_error (streamProms (final failed)) j = nth_error (streamProms s) j)
  /\ (forall now' e,
        chain (final (step s now' e)) = AwaitingPrune ->
        forallb is_resolved (streamProms (final (step s now' e))) = true)
  /\ compStreams later = compStreams s
  /\ (forall j now' data,
        listening s j = true ->
        trace (step later now' (StreamData j data))
        = [Send (LocalPipelineStateUpdate (run later) (downloading_data data))]).
Proof.
  intros Hc Hl Hp failed later.
  assert (E : failed
              = acquisition_catch err
                  (with_streams s (compStreams s)
                     (settle i (proxRej err) (streamProms s)))).
  { unfold failed, step. rewrite Hl, Hp. simpl. rewrite Hc. reflexivity. }
  assert (Hk : compStreams later = compStreams s).
  { unfold later. rewrite run_events_keeps_listeners.
    - rewrite E. reflexivity.
    - rewrite E. simpl. congruence. }
  split; [rewrite E; reflexivity|].
  split; [rewrite E; reflexivity|].
  split; [intros j Hj; rewrite E; simpl; now apply settle_other|].
  split.
  - intros now' e. destruct e; unfold_handlers; rewrite ?Hc;
      break_match; simpl in *; rewrite ?Hc; try congruence.
  - split; [exact Hk|].
    intros j now' data Hj. unfold step, listening in *.
    rewrite Hk. 
    destruct (nth_error (compStreams s) j) as [[|]|]; try discriminate.
    reflexivity.
Qed.

Lemma C4_first_failure_settles_aggregate_witness :
  let s := final (start_run sample_consortium VNull sample_run
                    [(10%Z, PullSettled (Fulfilled [Emitter; Emitter]))]) in
  let failed := step s 12%Z (StreamError 1 disk_error) in
  let later :=
    final (run_events [(13%Z, UnlinkSettled (Fulfilled tt))] (final failed)) in
  chain (final failed) = AcquisitionCleanup disk_error
  /\ trace failed = [UnlinkFiles (run_id (run s))]
  /\ (forall j, j <> 1 ->
        nth_error (streamProms (final failed)) j = nth_error (streamProms s) j)
  /\ (forall now' e,
        chain (final (step s now' e)) = AwaitingPrune ->
        forallb is_resolved (streamProms (final (step s now' e))) = true)
  /\ compStreams later = compStreams s
  /\ (forall j now' data,
        listening s j = true ->
        trace (step later now' (StreamData j data))
        = [Send (LocalPipelineStateUpdate (run later) (downloading_data data))]).
Proof.
  apply (C4_first_failure_settles_aggregate
           (final (start_run sample_consortium VNull sample_run
                     [(10%Z, PullSettled (Fulfilled [Emitter; Emitter]))]))
           12%Z 1 disk_error [(13%Z, UnlinkSettled (Fulfilled tt))]);
    reflexivity.
Defined.

(** C4, as the claim states it, fails when the second of two streams
    errors while the first is still pulling: the aggregate has settled and
    the cleanup has been called, the first promise is still pending, and
    the listeners of both streams are still attached. *)
Lemma C4_aggregate_settles_with_pull_in_flight :
  let x := start_run sample_consortium VNull sample_run
             (firstn 3 stream_error_events) in
  aggregate_settled (final x) = true
  /\ drained (final x) = false
  /\ streamProms (final x) = [Pending; RejectedWith disk_error]
  /\ last (trace x) PruneImages = UnlinkFiles "run-1"
  /\ listening (final x) 0 = true
  /\ listening (final x) 1 = true.
Proof. repeat split. Qed.

(** ** Pulls that never start *)

Lemma forEach_compStreams_promises (r : Run) (cs : list stream) (i : nat) :
  fst (forEach_compStreams r i cs) = map initial_promise cs.
Proof.
  revert i; induction cs as [|[|failure] cs IH]; intros i; simpl.
  - reflexivity.
  - specialize (IH (S i)). destruct (forEach_compStreams r (S i) cs).
    simpl in *. now rewrite IH.
  - specialize (IH (S i)). destruct (forEach_compStreams r (S i) cs).
    simpl in *. now rewrite IH.
Qed.

Lemma first_rejection_of_unstarted (cs : list stream) :
  (exists failure, In (Plain failure) cs) ->
  exists failure,
    In (Plain failure) cs
    /\ first_rejection (map initial_promise cs)
       = Some (VStr (message failure)).
Proof.
  induction cs as [|[|failure] cs IH]; intros [f Hf]; simpl in *.
  - contradiction.
  - destruct Hf as [Hf|Hf]; [discriminate|].
    destruct IH as [f0 [Hin Hr]]; [now exists f|].
    exists f0; split; [now right | exact Hr].
  - exists failure; split; [now left | reflexivity].
Qed.

(** C10: every pull that never started leaves its promise rejected with
    the bare message string of the plain value.  The aggregate then
    rejects with such a string; reading [message], [stack] and [error] of
    a string gives [undefined], so the one error record that the failure
    handler sends once the cleanup has resolved carries three undefined
    fields and nothing of the status code: the [error] property read off
    the run that was sent is an object with the properties [message],
    [stack] and [error] and no other, each of them [undefined].  Callbacks
    of the other streams that run before the cleanup resolves change
    nothing of this. *)
Theorem C10_unstarted_pull_rejects_with_bare_message (c : Consortium)
    (files : value) (r : Run) (now now' : Z) (cs : list stream)
    (evs : list (Z * event)) :
  (exists failure, In (Plain failure) cs) ->
  Forall (fun te => is_unlink_settled (snd te) = false) evs ->
  let pulled :=
    final (start_run c files r [(now, PullSettled (Fulfilled cs))]) in
  let x := run_events evs pulled
             >>= (fun s => step s now' (UnlinkSettled (Fulfilled tt))) in
  (forall i failure,
      nth_error cs i = Some (Plain failure) ->
      nth_error (streamProms pulled) i
      = Some (RejectedWith (VStr (message failure))))
  /\ (exists failure,
        In (Plain failure) cs
        /\ chain pulled = AcquisitionCleanup (VStr (message failure)))
  /\ filter is_terminal_record (trace x)
     = [Send (LocalRunError (consortium_name c)
                (assign_error r
                   (VObj [("message", VUndefined);
                          ("stack", VUndefined);
                          ("error", VUndefined)])
                   now'))]
  /\ error_records (trace x)
     = [Some (VObj [("message", VUndefined);
                    ("stack", VUndefined);
                    ("error", VUndefined)])]
  /\ map (option_map keys) (error_records (trace x))
     = [Some ["message"; "stack"; "error"]].
Proof.
  intros Hex Hall pulled x.
  destruct (first_rejection_of_unstarted cs Hex) as [f0 [Hin Hrej]].
  pose proof (forEach_compStreams_promises r cs 0) as Hproms.
  assert (E : pulled
              = with_chain
                  (with_streams (final (start_pipeline c files r)) cs
                     (map initial_promise cs))
                  (AcquisitionCleanup (VStr (message f0)))).
  { unfold pulled, start_run, start_pipeline, run_events, andThen, step.
    simpl. destruct (forEach_compStreams r 0 cs) as [proms acts].
    simpl in Hproms; subst proms.
    unfold promise_all. rewrite Hrej. reflexivity. }
  assert (Hc : chain pulled = AcquisitionCleanup (VStr (message f0))).
  { rewrite E. reflexivity. }
  assert (Hf : filter is_terminal_record (trace x)
               = [Send (LocalRunError (consortium_name c)
                          (assign_error r
                             (VObj [("message", VUndefined);
                                    ("stack", VUndefined);
                                    ("error", VUndefined)])
                             now'))]).
  { destruct (run_events_while_cleaning evs pulled _ Hc eq_refl Hall)
      as [Hc' [Hr' [Hn' Hp']]].
    unfold x. rewrite trace_andThen, filter_app.
    rewrite (progress_is_no_record _ Hp').
    unfold step. rewrite Hc', Hr', Hn', E. reflexivity. }
  split; [|split; [|split]].
  - intros i failure Hi. rewrite E. simpl.
    rewrite nth_error_map, Hi. reflexivity.
  - exists f0. split; [exact Hin | exact Hc].
  - exact Hf.
  - rewrite <- (error_records_filter (trace x)), Hf. split; reflexivity.
Qed.

Lemma C10_unstarted_pull_rejects_with_bare_message_witness :
  let cs := [Emitter; Plain daemon_down] in
  let evs := [(11%Z, StreamData 0 "Pulling fs layer")] in
  let pulled :=
    final (start_run sample_consortium VNull sample_run
             [(10%Z, PullSettled (Fulfilled cs))]) in
  let x := run_events evs pulled
             >>= (fun s => step s 12%Z (UnlinkSettled (Fulfilled tt))) in
  (forall i failure,
      nth_error cs i = Some (Plain failure) ->
      nth_error (streamProms pulled) i
      = Some (RejectedWith (VStr (message failure))))
  /\ (exists failure,
        In (Plain failure) cs
        /\ chain pulled = AcquisitionCleanup (VStr (message failure)))
  /\ filter is_terminal_record (trace x)
     = [Send (LocalRunError (consortium_name sample_consortium)
                (assign_error sample_run
                   (VObj [("message", VUndefined);
                          ("stack", VUndefined);
                          ("error", VUndefined)])
                   12%Z))]
  /\ error_records (trace x)
     = [Some (VObj [("message", VUndefined);
                    ("stack", VUndefined);
                    ("error", VUndefined)])]
  /\ map (option_map keys) (error_records (trace x))
     = [Some ["message"; "stack"; "error"]].
Proof.
  apply (C10_unstarted_pull_rejects_with_bare_message
           sample_consortium VNull sample_run 10%Z 12%Z
           [Emitter; Plain daemon_down]
           [(11%Z, StreamData 0 "Pulling fs layer")]).
  - exists daemon_down. simpl. auto.
  - constructor; [reflexivity | constructor].
Defined.

(** ** The error record of a rejected result *)

(** C7, as the code has it: when the result of the engine rejects with an
    object that carries an [input] property and the cleanup that follows
    resolves, exactly one terminal record is sent for the rejection, its
    error holds exactly [message], [stack], [error] and [input], each read
    from the rejection, and the chain ends fulfilled: the [error] property
    read off the run that was sent is an object with these four properties
    and no other, and its [input] is the input of the rejection.  Callbacks
    of the streams and of the engine that run in between change nothing of
    this. *)
Theorem C7_error_record_keeps_input (s : state) (now now' : Z)
    (fields : list (string * value)) (inp : value)
    (evs : list (Z * event)) :
  chain s = AwaitingResult ->
  lookup "input" fields = Some inp ->
  Forall (fun te => is_unlink_settled (snd te) = false) evs ->
  let x := step s now (ResultSettled (Rejected (VObj fields)))
             >>= run_events evs
             >>= (fun s' => step s' now' (UnlinkSettled (Fulfilled tt))) in
  exists m st e,
    get_prop (VObj fields) "message" = Some m
    /\ get_prop (VObj fields) "stack" = Some st
    /\ get_prop (VObj fields) "error" = Some e
    /\ filter is_terminal_record (trace x)
       = [Send (LocalRunError (consortium_name (consortium s))
                  (assign_error (run s)
                     (VObj [("message", m); ("stack", st);
                            ("error", e); ("input", inp)])
                     now'))]
    /\ error_records (trace x)
       = [Some (VObj [("message", m); ("stack", st);
                      ("error", e); ("input", inp)])]
    /\ map (option_map keys) (error_records (trace x))
       = [Some ["message"; "stack"; "error"; "input"]]
    /\ chain (final x) = Finished ChainFulfilled.
Proof.
  intros Hc Hin Hall x.
  set (rejected := VObj fields) in *.
  destruct (get_prop rejected "message") as [m|] eqn:Em; [|discriminate Em].
  destruct (get_prop rejected "stack") as [st|] eqn:Est; [|discriminate Est].
  destruct (get_prop rejected "error") as [e|] eqn:Ee; [|discriminate Ee].
  assert (Ei : get_prop rejected "input" = Some inp).
  { unfold rejected; simpl. simpl in Hin. rewrite Hin. reflexivity. }
  exists m, st, e. repeat (split; [reflexivity|]).
  set (x1 := step s now (ResultSettled (Rejected rejected))) in *.
  assert (E1 : x1 = result_catch now rejected s).
  { unfold x1, step. rewrite Hc. reflexivity. }
  assert (H1 : chain (final x1) = FailureCleanup rejected
               /\ run (final x1) = run s
               /\ consortium (final x1) = consortium s
               /\ filter is_terminal_record (trace x1) = []).
  { rewrite E1. unfold result_catch. rewrite Em. auto. }
  destruct H1 as [Hc1 [Hr1 [Hn1 Ht1]]].
  destruct (run_events_while_cleaning evs (final x1) _ Hc1 eq_refl Hall)
    as [Hc2 [Hr2 [Hn2 Hp2]]].
  set (s2 := final (run_events evs (final x1))) in *.
  assert (E3 : step s2 now' (UnlinkSettled (Fulfilled tt))
               = (with_chain
                    (with_run s2
                       (assign_error (run s2)
                          (VObj [("message", m); ("stack", st);
                                 ("error", e); ("input", inp)])
                          now'))
                    (Finished ChainFulfilled),
                  [Send (LocalRunError (consortium_name (consortium s2))
                           (assign_error (run s2)
                              (VObj [("message", m); ("stack", st);
                                     ("error", e); ("input", inp)])
                              now'))])).
  { unfold step. rewrite Hc2. unfold execution_error_payload.
    rewrite Em, Est, Ee, Ei. reflexivity. }
  assert (Hf : filter is_terminal_record (trace x)
               = [Send (LocalRunError (consortium_name (consortium s))
                          (assign_error (run s)
                             (VObj [("message", m); ("stack", st);
                                    ("error", e); ("input", inp)])
                             now'))]).
  { unfold x. rewrite !trace_andThen, !final_andThen, !filter_app.
    fold s2. rewrite E3, Ht1, (progress_is_no_record _ Hp2).
    rewrite Hr2, Hr1, Hn2, Hn1. reflexivity. }
  split; [exact Hf|].
  rewrite <- (error_records_filter (trace x)), Hf.
  split; [reflexivity|]. split; [reflexivity|].
  unfold x. rewrite !final_andThen. fold s2. rewrite E3. reflexivity.
Qed.

Lemma C7_error_record_keeps_input_witness :
  let x := step executing 14%Z (ResultSettled (Rejected boom))
             >>= run_events [(15%Z, StateUpdate (VStr "stopping"))]
             >>= (fun s' => step s' 16%Z (UnlinkSettled (Fulfilled tt))) in
  exists m st e,
    get_prop boom "message" = Some m
    /\ get_prop boom "stack" = Some st
    /\ get_prop boom "error" = Some e
    /\ filter is_terminal_record (trace x)
       = [Send (LocalRunError (consortium_name (consortium executing))
                  (assign_error (run executing)
                     (VObj [("message", m); ("stack", st);
                            ("error", e); ("input", VObj [("x", VNum 1)])])
                     16%Z))]
    /\ error_records (trace x)
       = [Some (VObj [("message", m); ("stack", st);
                      ("error", e); ("input", VObj [("x", VNum 1)])])]
    /\ map (option_map keys) (error_records (trace x))
       = [Some ["message"; "stack"; "error"; "input"]]
    /\ chain (final x) = Finished ChainFulfilled.
Proof.
  apply (C7_error_record_keeps_input executing 14%Z 16%Z
           [("message", VStr "boom"); ("input", VObj [("x", VNum 1)])]
           (VObj [("x", VNum 1)])
           [(15%Z, StateUpdate (VStr "stopping"))]).
  - reflexivity.
  - reflexivity.
  - constructor; [reflexivity | constructor].
Defined.

(** C7, as the claim states it, fails when the cleanup after the rejection
    rejects in turn: the one error record of the run is built from the
    failure of the cleanup and has no [input]. *)
Lemma C7_failed_cleanup_drops_input :
  let x := step executing 14%Z (ResultSettled (Rejected boom))
             >>= (fun s' => step s' 15%Z (UnlinkSettled (Rejected disk_error))) in
  get_prop boom "input" = Some (VObj [("x", VNum 1)])
  /\ error_records (trace x)
     = [Some (VObj [("message",
                     VStr "EPERM: operation not permitted, unlink");
                    ("stack", VStr "Error: EPERM");
                    ("error", VUndefined)])]
  /\ map (option_map keys) (error_records (trace x))
     = [Some ["message"; "stack"; "error"]].
Proof. repeat split. Qed.

(** ** Cleanup and the terminal record *)







(** *** Records and the completion of the cleanup *)

Lemma forEach_compStreams_setup (r : Run) (cs : list stream) (i : nat) :
  forallb is_setup (snd (forEach_compStreams r i cs)) = true.
Proof.
  revert i; induction cs as [|[|failure] cs IH]; intros i; simpl.
  - reflexivity.
  - specialize (IH (S i)). destruct (forEach_compStreams r (S i) cs).
    simpl in *. exact IH.
  - specialize (IH (S i)). destruct (forEach_compStreams r (S i) cs).
    simpl in *. exact IH.
Qed.

















(** * Further properties of [start-pipeline] *)

(** ** The chain only moves forward *)

Lemma step_rank (s : state) (now : Z) (e : event) :
  rank (chain s) <= rank (chain (final (step s now e))).
Proof.
  destruct e; unfold_handlers; break_match; simpl in *; invert_pairs;
    simpl; use_equations; simpl; try lia.
Qed.

(** X1: whatever callbacks arrive, in whatever order, the promise chain of
    a [start-pipeline] invocation never goes back to an earlier phase:
    the place of its phase along the chain never decreases. *)
Theorem X1_chain_never_goes_back (evs : list (Z * event)) (s : state) :
  rank (chain s) <= rank (chain (final (run_events evs s))).
Proof.
  revert s; induction evs as [|[now e] evs IH]; intros s; simpl.
  - lia.
  - rewrite final_andThen.
    pose proof (step_rank s now e). pose proof (IH (final (step s now e))).
    lia.
Qed.

(** ** One pull, at most one prune, at most one start *)

Lemma count_app (P : action -> bool) (tr1 tr2 : list action) :
  count P (tr1 ++ tr2) = count P tr1 + count P tr2.
Proof. unfold count. now rewrite filter_app, length_app. Qed.

Lemma count_none (P Q : action -> bool) (tr : list action) :
  (forall a, Q a = true -> P a = false) ->
  forallb Q tr = true ->
  count P tr = 0.
Proof.
  intros HPQ. induction tr as [|a tr IH]; simpl; intros H; [reflexivity|].
  apply andb_prop in H. destruct H as [Ha Htr].
  unfold count in *. simpl. rewrite (HPQ a Ha). now apply IH.
Qed.

Lemma setup_counts (r : Run) (cs : list stream) (i : nat) :
  let acts := snd (forEach_compStreams r i cs) in
  count is_save acts = 0 /\ count is_pull acts = 0
  /\ count is_prune acts = 0 /\ count is_start acts = 0.
Proof.
  pose proof (forEach_compStreams_setup r cs i) as H.
  repeat split; apply (count_none _ is_setup); auto;
    intros [[]| | | | | | | | | | | |]; simpl; congruence.
Qed.

(** One callback saves nothing, pulls nothing, and calls the prune or the
    start only when the chain moves past the place of that call. *)
Lemma step_counts (s : state) (now : Z) (e : event) :
  let x := step s now e in
  count is_save (trace x) = 0
  /\ count is_pull (trace x) = 0
  /\ count is_prune (trace x) + b2n (Nat.leb 3 (rank (chain s)))
     <= b2n (Nat.leb 3 (rank (chain (final x))))
  /\ count is_start (trace x) + b2n (Nat.leb 4 (rank (chain s)))
     <= b2n (Nat.leb 4 (rank (chain (final x)))).
Proof.
  destruct e as [[cs|reason]| | | | | | | |].
  { unfold step. destruct (chain s) eqn:Hc;
      try (simpl; rewrite Hc; simpl; repeat split; lia).
    pose proof (setup_counts (run s) cs 0) as [H1 [H2 [H3 H4]]].
    destruct (forEach_compStreams (run s) 0 cs) as [proms acts].
    simpl in H1, H2, H3, H4.
    destruct (promise_all proms); unfold_handlers; simpl;
      rewrite ?count_app, ?H1, ?H2, ?H3, ?H4; simpl; repeat split; lia. }
  all: unfold_handlers; simpl; destruct (chain s) eqn:Hc; simpl;
    break_match; simpl in *; invert_pairs; rewrite ?Hc in *; simpl in *;
    repeat split; lia.
Qed.

Lemma run_events_counts (evs : list (Z * event)) (s : state) :
  let x := run_events evs s in
  count is_save (trace x) = 0
  /\ count is_pull (trace x) = 0
  /\ count is_prune (trace x) + b2n (Nat.leb 3 (rank (chain s)))
     <= b2n (Nat.leb 3 (rank (chain (final x))))
  /\ count is_start (trace x) + b2n (Nat.leb 4 (rank (chain s)))
     <= b2n (Nat.leb 4 (rank (chain (final x)))).
Proof.
  revert s; induction evs as [|[now e] evs IH]; intros s.
  - simpl. repeat split; lia.
  - cbn [run_events]. destruct (step_counts s now e) as [H1 [H2 [H3 H4]]].
    destruct (IH (final (step s now e))) as [K1 [K2 [K3 K4]]].
    cbv zeta in *.
    rewrite final_andThen, trace_andThen, !count_app.
    repeat split; lia.
Qed.

(** X2: whatever callbacks arrive, a [start-pipeline] invocation first
    sends [save-local-run] and calls [pullImagesFromList] with the image
    list, and never does either again; it calls [pruneImages] at most once
    and [startPipeline] at most once. *)
Theorem X2_one_pull_one_prune_one_start (c : Consortium) (files : value)
    (r : Run) (evs : list (Z * event)) :
  exists rest,
    trace (start_run c files r evs)
    = Send (SaveLocalRun r)
        :: PullImagesFromList (computationImageList (run_pipelineSnapshot r))
        :: rest
    /\ count is_save rest = 0
    /\ count is_pull rest = 0
    /\ count is_prune rest <= 1
    /\ count is_start rest <= 1.
Proof.
  exists (trace (run_events evs (final (start_pipeline c files r)))).
  split.
  - unfold start_run. rewrite trace_andThen. reflexivity.
  - destruct (run_events_counts evs (final (start_pipeline c files r)))
      as [H1 [H2 [H3 H4]]].
    cbv zeta in H1, H2, H3, H4.
    change (b2n (Nat.leb 3 (rank (chain (final (start_pipeline c files r))))))
      with 0 in H3.
    change (b2n (Nat.leb 4 (rank (chain (final (start_pipeline c files r))))))
      with 0 in H4.
    assert (Hb : forall b, b2n b <= 1) by (intros []; simpl; lia).
    set (s' := final (run_events evs (final (start_pipeline c files r)))) in *.
    pose proof (Hb (Nat.leb 3 (rank (chain s')))).
    pose proof (Hb (Nat.leb 4 (rank (chain s')))).
    repeat split; try assumption; lia.
Qed.

(** ** The run a handler works for *)

Lemma forEach_compStreams_forall (P : action -> bool) (r : Run)
    (cs : list stream) (i : nat) :
  (forall j evt, P (StreamOn j evt) = true) ->
  P (Send (LocalPipelineStateUpdate r downloading)) = true
  \/ Forall (fun st => st <> Emitter) cs ->
  forallb P (snd (forEach_compStreams r i cs)) = true.
Proof.
  intros Hsetup. revert i; induction cs as [|[|failure] cs IH];
    intros i Hr; simpl.
  - reflexivity.
  - assert (Hupd : P (Send (LocalPipelineStateUpdate r downloading)) = true).
    { destruct Hr as [H|H]; [exact H|]. inversion H; congruence. }
    specialize (IH (S i) (or_introl Hupd)).
    destruct (forEach_compStreams r (S i) cs). simpl in *.
    rewrite Hupd, IH, !Hsetup. reflexivity.
  - assert (Hr' : P (Send (LocalPipelineStateUpdate r downloading)) = true
                  \/ Forall (fun st => st <> Emitter) cs).
    { destruct Hr as [H|H]; [now left | right; now inversion H]. }
    specialize (IH (S i) Hr').
    destruct (forEach_compStreams r (S i) cs). simpl in *. exact IH.
Qed.

(** One callback leaves the identity of the run, the consortium and the
    files as they are. *)
Lemma step_keeps_identity (s : state) (now : Z) (e : event) :
  let x := step s now e in
  run_id (run (final x)) = run_id (run s)
  /\ run_type (run (final x)) = run_type (run s)
  /\ consortium (final x) = consortium s.
Proof.
  destruct e; unfold_handlers; break_match; simpl in *; invert_pairs;
    simpl; auto.
Qed.

Lemma step_for_run (s : state) (now : Z) (e : event) :
  forallb (for_run (run_id (run s))) (trace (step s now e)) = true.
Proof.
  destruct e as [[cs|reason]| | | | | | | |].
  { unfold step. destruct (chain s); try reflexivity.
    pose proof (forEach_compStreams_forall (for_run (run_id (run s)))
                  (run s) cs 0) as Hacts.
    destruct (forEach_compStreams (run s) 0 cs) as [proms acts].
    simpl in Hacts.
    assert (Ha : forallb (for_run (run_id (run s))) acts = true).
    { apply Hacts; [reflexivity | now left]. }
    destruct (promise_all proms); unfold_handlers; simpl;
      rewrite ?forallb_app, ?Ha; simpl; rewrite ?String.eqb_refl; auto. }
  all: unfold_handlers; break_match; simpl in *; invert_pairs; simpl;
    rewrite ?String.eqb_refl; reflexivity.
Qed.

(** X3: whatever callbacks arrive, every call of [unlinkFiles] and every
    call of [startPipeline] that a [start-pipeline] invocation makes names
    the id of its own run: the handler never cleans up or starts another
    run. *)
Theorem X3_only_its_own_run (c : Consortium) (files : value) (r : Run)
    (evs : list (Z * event)) :
  forallb (for_run (run_id r)) (trace (start_run c files r evs)) = true.
Proof.
  unfold start_run. rewrite trace_andThen, forallb_app. simpl.
  assert (H : forall evs s,
             forallb (for_run (run_id (run s))) (trace (run_events evs s))
             = true).
  { clear. induction evs as [|[now e] evs IH]; intros s; simpl.
    - reflexivity.
    - rewrite trace_andThen, forallb_app, step_for_run. simpl.
      destruct (step_keeps_identity s now e) as [Hid _].
      rewrite <- Hid. apply IH. }
  apply (H evs (final (start_pipeline c files r))).
Qed.

(** ** Runs that are not local *)




(** ** The error of a run stays on the run object *)

Lemma after_mark_app (mark P : action -> bool) (tr1 tr2 : list action)
    (seen : bool) :
  after_mark mark P seen (tr1 ++ tr2)
  = after_mark mark P seen tr1
    && after_mark mark P (seen || existsb mark tr1) tr2.
Proof.
  revert seen; induction tr1 as [|a tr1 IH]; intros seen; simpl.
  - now rewrite orb_false_r.
  - rewrite IH, orb_assoc, andb_assoc. reflexivity.
Qed.

Lemma after_mark_forall (mark P : action -> bool) (tr : list action)
    (seen : bool) :
  forallb P tr = true -> after_mark mark P seen tr = true.
Proof.
  revert seen; induction tr as [|a tr IH]; intros seen; simpl;
    [reflexivity|].
  intros H. apply andb_prop in H. destruct H as [Ha Htr].
  rewrite Ha, (IH _ Htr). now destruct seen.
Qed.

Lemma after_mark_unseen (mark P : action -> bool) (tr : list action) :
  existsb mark tr = false -> after_mark mark P false tr = true.
Proof.
  induction tr as [|a tr IH]; simpl; [reflexivity|].
  intros H. apply orb_false_elim in H. destruct H as [Ha Htr].
  rewrite Ha. simpl. now apply IH.
Qed.

Lemma setup_has_no_error_record (r : Run) (cs : list stream) (i : nat) :
  existsb is_error_record (snd (forEach_compStreams r i cs)) = false.
Proof.
  pose proof (forEach_compStreams_setup r cs i) as H.
  destruct (existsb is_error_record (snd (forEach_compStreams r i cs)))
    eqn:Ex; [|reflexivity].
  apply existsb_exists in Ex. destruct Ex as [a [Hin Ha]].
  rewrite forallb_forall in H. specialize (H a Hin).
  destruct a as [[]| | | | | | | | | | | |]; discriminate.
Qed.

(** One callback: once an error record was sent the run object has an
    error, every message of the callback shows it, and it is still there
    afterwards. *)
Lemma step_error_stays (s : state) (now : Z) (e : event) (seen : bool) :
  (seen = true -> has_error (run s) = true) ->
  let x := step s now e in
  after_mark is_error_record carries_error seen (trace x) = true
  /\ (seen || existsb is_error_record (trace x) = true ->
      has_error (run (final x)) = true).
Proof.
  intros Hinv.
  destruct e as [[cs|reason]| | | | | | | |].
  { unfold step. destruct (chain s); try (simpl; rewrite orb_false_r;
      split; [reflexivity | exact Hinv]).
    pose proof (setup_has_no_error_record (run s) cs 0) as Hno.
    pose proof (forEach_compStreams_forall carries_error (run s) cs 0)
      as Hall.
    destruct (forEach_compStreams (run s) 0 cs) as [proms acts].
    simpl in Hno, Hall.
    assert (Ha : after_mark is_error_record carries_error seen acts = true).
    { destruct seen.
      - apply after_mark_forall.
        apply Hall; [reflexivity | left; simpl; now apply Hinv].
      - now apply after_mark_unseen. }
    destruct (promise_all proms); unfold_handlers; simpl;
      rewrite ?after_mark_app, ?existsb_app, ?Ha, ?Hno, ?orb_false_r;
      simpl; rewrite ?orb_false_r, ?andb_true_r;
      (split; [now destruct seen | exact Hinv]). }
  all: unfold_handlers; break_match; simpl in *; invert_pairs; simpl;
    rewrite ?orb_false_r, ?orb_true_r, ?andb_true_r;
    split; auto; destruct seen; simpl; auto.
Qed.

(** X5: the run object is mutated in place and its [error] is never
    removed.  Whatever callbacks arrive, every message about the run that
    is sent after a [local-run-error] record still carries an [error]:
    the progress updates and, when the pipeline was started all the same
    and completed, the [local-run-complete] record with its results. *)
Theorem X5_error_stays_on_the_run (c : Consortium) (files : value) (r : Run)
    (evs : list (Z * event)) :
  after_mark is_error_record carries_error false
    (trace (start_run c files r evs)) = true.
Proof.
  unfold start_run. rewrite trace_andThen, after_mark_app. simpl.
  assert (H : forall evs s seen,
             (seen = true -> has_error (run s) = true) ->
             after_mark is_error_record carries_error seen
               (trace (run_events evs s)) = true).
  { clear. induction evs as [|[now e] evs IH]; intros s seen Hinv; simpl.
    - reflexivity.
    - destruct (step_error_stays s now e seen Hinv) as [Hstep Hnext].
      rewrite trace_andThen, after_mark_app, Hstep. simpl.
      apply IH. exact Hnext. }
  apply H. discriminate.
Qed.

(** ** When every pull ends *)

Lemma settle_same (f : promise -> promise) (ps : list promise) (i : nat) :
  nth_error (settle i f ps) i = option_map f (nth_error ps i).
Proof.
  revert i; induction ps as [|p ps IH]; intros [|i]; simpl; auto.
Qed.

Lemma settle_length (f : promise -> promise) (ps : list promise) (i : nat) :
  List.length (settle i f ps) = List.length ps.
Proof.
  revert i; induction ps as [|p ps IH]; intros [|i]; simpl; auto.
Qed.

Lemma all_resolved_nth (ps : list promise) :
  forallb is_resolved ps = true
  <-> (forall i p, nth_error ps i = Some p -> p = Resolved).
Proof.
  rewrite forallb_forall. split.
  - intros H i p Hi. apply nth_error_In in Hi. specialize (H p Hi).
    destruct p; try discriminate; reflexivity.
  - intros H p Hin. apply In_nth_error in Hin. destruct Hin as [i Hi].
    now rewrite (H i p Hi).
Qed.

Lemma listening_started (s : state) (i : nat) :
  forallb is_emitter (compStreams s) = true ->
  i < List.length (compStreams s) ->
  listening s i = true.
Proof.
  intros Hall Hi. unfold listening.
  destruct (nth_error (compStreams s) i) as [st|] eqn:E.
  - rewrite forallb_forall in Hall.
    specialize (Hall st (nth_error_In _ _ E)). now destruct st.
  - apply nth_error_None in E. lia.
Qed.

Lemma andThen_silent (x : effect) (k : state -> effect) :
  trace x = [] -> x >>= k = k (final x).
Proof.
  destruct x as [s a]; unfold trace, final, andThen; simpl; intros ->.
  now destruct (k s).
Qed.

Lemma run_events_single (now : Z) (e : event) (s : state) :
  run_events [(now, e)] s = step s now e.
Proof.
  simpl. unfold andThen, pure. destruct (step s now e) as [s1 a1].
  now rewrite app_nil_r.
Qed.

(** While the aggregate is awaited and every stream has started, the
    ['end'] events of distinct streams resolve their promises one by one;
    the prune is called by the one that ends last, and not before. *)
Lemma ends_resolve_one_by_one (ends : list (Z * nat)) (s : state) :
  chain s = AwaitingStreams ->
  forallb is_emitter (compStreams s) = true ->
  streamProms s = map (fun _ => Pending) (compStreams s) ->
  NoDup (map snd ends) ->
  Forall (fun i => i < List.length (compStreams s)) (map snd ends) ->
  let n := List.length (compStreams s) in
  let x := run_events (end_events ends) s in
  compStreams (final x) = compStreams s
  /\ List.length (streamProms (final x)) = n
  /\ (forall i, In i (map snd ends) ->
                nth_error (streamProms (final x)) i = Some Resolved)
  /\ (forall i, i < n -> ~ In i (map snd ends) ->
                nth_error (streamProms (final x)) i = Some Pending)
  /\ (List.length ends < n ->
      chain (final x) = AwaitingStreams /\ trace x = [])
  /\ (List.length ends = n -> 0 < n ->
      chain (final x) = AwaitingPrune /\ trace x = [PruneImages]).
Proof.
  intros Hc Hem Hps. induction ends as [|[t j] ends IH] using rev_ind;
    intros Hnd Hlt n x.
  - unfold x. simpl. repeat split; auto.
    + now rewrite Hps, length_map.
    + intros i [].
    + intros i Hi _. rewrite Hps, nth_error_map.
      destruct (nth_error (compStreams s) i) eqn:E; [reflexivity|].
      apply nth_error_None in E. unfold n in Hi. lia.
    + simpl in H. unfold n in *. lia.
    + simpl in H. unfold n in *. lia.
  - rewrite map_app in Hnd, Hlt. simpl in Hnd, Hlt.
    assert (Hnd' : NoDup (map snd ends)).
    { apply NoDup_remove_1 in Hnd. now rewrite app_nil_r in Hnd. }
    assert (Hj : ~ In j (map snd ends)).
    { apply NoDup_remove_2 in Hnd. now rewrite app_nil_r in Hnd. }
    apply Forall_app in Hlt. destruct Hlt as [Hlt' Hjn].
    inversion Hjn as [|? ? Hjlt _]; subst.
    assert (Hlen : List.length (map snd ends) < n).
    { assert (Hle : List.length (map snd (ends ++ [(t, j)])) <= n).
      { unfold n. rewrite <- (length_seq (List.length (compStreams s)) 0).
        apply NoDup_incl_length.
        - rewrite map_app. exact Hnd.
        - intros i Hi. rewrite map_app in Hi. apply in_seq.
          apply in_app_or in Hi. destruct Hi as [Hi|[<-|[]]].
          + rewrite Forall_forall in Hlt'. specialize (Hlt' i Hi). lia.
          + simpl. lia. }
      rewrite map_app, length_app in Hle. simpl in Hle. lia. }
    rewrite length_map in Hlen.
    destruct (IH Hnd' Hlt') as [Kcs [Klen [Kin [Kout [Kwait _]]]]].
    destruct (Kwait Hlen) as [Kc Ktr].
    set (s' := final (run_events (end_events ends) s)) in *.
    assert (Hlisten : listening s' j = true).
    { apply listening_started; rewrite Kcs; assumption. }
    assert (Hpend : nth_error (streamProms s') j = Some Pending).
    { apply Kout; assumption. }
    set (s1 := with_streams s' (compStreams s')
                 (settle j proxRes (streamProms s'))).
    assert (Hin1 : forall i, In i (map snd (ends ++ [(t, j)])) ->
                             nth_error (streamProms s1) i = Some Resolved).
    { intros i Hi. rewrite map_app in Hi. simpl.
      destruct (Nat.eq_dec i j) as [->|Hne].
      - rewrite settle_same, Hpend. reflexivity.
      - rewrite settle_other by assumption. apply Kin.
        apply in_app_or in Hi. destruct Hi as [Hi|[Hi|[]]]; [exact Hi|].
        simpl in Hi. congruence. }
    assert (Hout1 : forall i, i < n -> ~ In i (map snd (ends ++ [(t, j)])) ->
                              nth_error (streamProms s1) i = Some Pending).
    { intros i Hi Hni. rewrite map_app in Hni. simpl.
      assert (i <> j) by (intros ->; apply Hni, in_or_app; right; now left).
      rewrite settle_other by assumption. apply Kout; [exact Hi|].
      intros Hin. apply Hni, in_or_app. now left. }
    assert (Hstep : step s' t (StreamEnd j)
                    = if forallb is_resolved (streamProms s1)
                      then then_prune s1 else pure s1).
    { unfold step. rewrite Hlisten, Hpend. fold s1.
      change (chain s1) with (chain s'). rewrite Kc. reflexivity. }
    assert (Hx : x = step s' t (StreamEnd j)).
    { unfold x, end_events. rewrite map_app, run_events_app.
      fold (end_events ends). rewrite (andThen_silent _ _ Ktr).
      apply run_events_single. }
    rewrite Hx, Hstep, length_app.
    destruct (forallb is_resolved (streamProms s1)) eqn:Eall.
    + (* the last pull has ended *)
      assert (Hfull : List.length ends + 1 = n).
      { destruct (Nat.eq_dec (List.length ends + 1) n) as [E|E]; [exact E|].
        exfalso. assert (Hsome : ~ incl (seq 0 n) (map snd (ends ++ [(t, j)]))).
        { intros Hincl. apply NoDup_incl_length in Hincl; [|apply seq_NoDup].
          rewrite length_seq, length_map, length_app in Hincl.
          simpl in Hincl. lia. }
        apply Hsome. intros i Hi. apply in_seq in Hi.
        destruct (in_dec Nat.eq_dec i (map snd (ends ++ [(t, j)])))
          as [Hin|Hnin]; [exact Hin|].
        rewrite all_resolved_nth in Eall.
        specialize (Hout1 i (proj2 Hi) Hnin).
        specialize (Eall i Pending Hout1). discriminate. }
      simpl. split; [exact Kcs|]. split; [now rewrite settle_length|].
      split; [exact Hin1|]. split; [exact Hout1|].
      split; [intros Hless; simpl in Hless; lia | auto].
    + (* another pull is still running *)
      simpl. split; [exact Kcs|]. split; [now rewrite settle_length|].
      split; [exact Hin1|]. split; [exact Hout1|].
      split; [auto|]. intros H _. exfalso. simpl in H.
        assert (Hall : forallb is_resolved (streamProms s1) = true).
        { apply all_resolved_nth. intros i p Hi.
          assert (Hin : i < n).
          { assert (Hsome : nth_error (streamProms s1) i <> None)
              by congruence.
            apply nth_error_Some in Hsome. simpl in Hsome.
            rewrite settle_length, Klen in Hsome. exact Hsome. }
          assert (Hincl : incl (seq 0 n) (map snd (ends ++ [(t, j)]))).
          { apply NoDup_length_incl.
            - rewrite map_app. exact Hnd.
            - rewrite length_seq, length_map, length_app. simpl. lia.
            - intros k Hk. apply in_seq. rewrite map_app in Hk.
              apply in_app_or in Hk. destruct Hk as [Hk|[<-|[]]].
              + rewrite Forall_forall in Hlt'. specialize (Hlt' k Hk).
                unfold n. lia.
              + unfold n. simpl. lia. }
          assert (Hi' : In i (map snd (ends ++ [(t, j)]))).
          { apply Hincl, in_seq. lia. }
          rewrite (Hin1 i Hi') in Hi. congruence. }
        congruence.
Qed.

Lemma started_promises (cs : list stream) :
  forallb is_emitter cs = true ->
  map initial_promise cs = map (fun _ => Pending) cs.
Proof.
  induction cs as [|[|failure] cs IH]; simpl; intros H;
    [reflexivity | | discriminate].
  now rewrite IH.
Qed.

Lemma promise_all_pending (cs : list stream) :
  cs <> [] ->
  promise_all (map (fun _ => Pending) cs) = AllPending.
Proof.
  intros Hne. unfold promise_all.
  assert (H : first_rejection (map (fun _ : stream => Pending) cs) = None).
  { clear. induction cs; simpl; auto. }
  rewrite H. destruct cs; [congruence | reflexivity].
Qed.

(** X6: when every pull has started, the aggregate of the pulls waits for
    all of them: with the ['end'] events of distinct streams arriving in
    any order, [pruneImages] is called exactly once, in the turn of the
    stream that ends last, and the chain keeps waiting as long as one
    stream has not ended.  With no image at all the prune is called at
    once. *)
Theorem X6_prune_when_last_pull_ends (c : Consortium) (files : value)
    (r : Run) (now : Z) (cs : list stream) (ends : list (Z * nat)) :
  forallb is_emitter cs = true ->
  NoDup (map snd ends) ->
  Forall (fun i => i < List.length cs) (map snd ends) ->
  let x := start_run c files r
             ((now, PullSettled (Fulfilled cs)) :: end_events ends) in
  let all_ended := Nat.eqb (List.length ends) (List.length cs) in
  chain (final x) = (if all_ended then AwaitingPrune else AwaitingStreams)
  /\ count is_prune (trace x) = (if all_ended then 1 else 0)
  /\ (all_ended = true -> last (trace x) PruneImages = PruneImages)
  /\ count is_start (trace x) = 0.
Proof.
  intros Hem Hnd Hlt x all_ended.
  assert (Hcases : cs = [] \/ cs <> []).
  { destruct cs; [now left | right; discriminate]. }
  destruct Hcases as [Ecs|Hne].
  - (* no image: Promise.all([]) is fulfilled at once *)
    subst cs. assert (ends = []).
    { destruct ends as [|[t i] ends]; [reflexivity|].
      inversion Hlt; simpl in *; lia. }
    subst ends. unfold x, all_ended. simpl. repeat split.
  - set (pulled := start_run c files r [(now, PullSettled (Fulfilled cs))]).
    pose proof (forEach_compStreams_promises r cs 0) as Hproms.
    pose proof (setup_counts r cs 0) as [_ [_ [Hprune Hstart]]].
    assert (Epulled :
             pulled
             = (with_chain
                  (with_streams (final (start_pipeline c files r)) cs
                     (map (fun _ => Pending) cs))
                  AwaitingStreams,
                trace (start_pipeline c files r)
                  ++ snd (forEach_compStreams r 0 cs))).
    { unfold pulled, start_run, start_pipeline, run_events, andThen, step.
      simpl. destruct (forEach_compStreams r 0 cs) as [proms acts].
      simpl in Hproms. rewrite (started_promises cs Hem) in Hproms.
      subst proms. rewrite (promise_all_pending cs Hne).
      simpl. now rewrite app_nil_r. }
    assert (Ex : x = pulled >>= run_events (end_events ends)).
    { unfold x, pulled.
      change ((now, PullSettled (Fulfilled cs)) :: end_events ends)
        with ([(now, PullSettled (Fulfilled cs))] ++ end_events ends).
      apply start_run_app. }
    destruct (ends_resolve_one_by_one ends (final pulled))
      as [_ [_ [_ [_ [Hwait Hdone]]]]];
      try assumption;
      try (rewrite Epulled; simpl; assumption);
      try (rewrite Epulled; reflexivity).
    rewrite Ex, final_andThen, trace_andThen, !count_app.
    assert (Hn : List.length (compStreams (final pulled)) = List.length cs).
    { rewrite Epulled. reflexivity. }
    rewrite Hn in Hwait, Hdone.
    assert (Hp0 : count is_prune (trace pulled) = 0).
    { rewrite Epulled. unfold trace. cbn [snd].
      rewrite count_app, Hprune. reflexivity. }
    assert (Hs0 : count is_start (trace pulled) = 0).
    { rewrite Epulled. unfold trace. cbn [snd].
      rewrite count_app, Hstart. reflexivity. }
    rewrite Hp0, Hs0.
    assert (Hle : List.length ends <= List.length cs).
    { rewrite <- (length_map snd ends), <- (length_seq (List.length cs) 0).
      apply NoDup_incl_length; [exact Hnd|].
      intros i Hi. apply in_seq. rewrite Forall_forall in Hlt.
      specialize (Hlt i Hi). lia. }
    unfold all_ended.
    destruct (Nat.eqb (List.length ends) (List.length cs)) eqn:E.
    + apply Nat.eqb_eq in E.
      destruct (Hdone E) as [Hchain Htrace].
      { destruct cs; [congruence | simpl; lia]. }
      rewrite Hchain, Htrace. repeat split.
      rewrite last_last. reflexivity.
    + apply Nat.eqb_neq in E.
      destruct Hwait as [Hchain Htrace]; [lia|].
      rewrite Hchain, Htrace. repeat split. discriminate.
Qed.

(** ** How much a run can report and clean up *)

Lemma setup_bounds (r : Run) (cs : list stream) (i : nat) :
  let acts := snd (forEach_compStreams r i cs) in
  count is_terminal_record acts = 0 /\ count is_any_unlink acts = 0.
Proof.
  pose proof (forEach_compStreams_setup r cs i) as H.
  split; apply (count_none _ is_setup); auto;
    intros [[]| | | | | | | | | | | |]; simpl; congruence.
Qed.

Lemma step_bounds (s : state) (now : Z) (e : event) :
  let x := step s now e in
  count is_terminal_record (trace x) + records_bound (chain s)
  <= records_bound (chain (final x))
  /\ count is_any_unlink (trace x) + cleanup_bound (chain s)
     <= cleanup_bound (chain (final x)).
Proof.
  destruct e as [[cs|reason]| | | | | | | |].
  { unfold step. destruct (chain s) eqn:Hc;
      try (simpl; rewrite Hc; simpl; split; lia).
    pose proof (setup_bounds (run s) cs 0) as [H1 H2].
    destruct (forEach_compStreams (run s) 0 cs) as [proms acts].
    simpl in H1, H2.
    destruct (promise_all proms); unfold_handlers; simpl;
      rewrite ?count_app, ?H1, ?H2; simpl; split; lia. }
  all: unfold_handlers; simpl; destruct (chain s) eqn:Hc; simpl;
    break_match; simpl in *; invert_pairs; rewrite ?Hc in *; simpl in *;
    split; lia.
Qed.

(** X15: whatever callbacks arrive, one [start-pipeline] invocation sends
    at most two terminal records ([local-run-error],
    [local-run-complete]) and calls [unlinkFiles] at most three times. *)
Theorem X15_bounded_records_and_cleanups (c : Consortium) (files : value)
    (r : Run) (evs : list (Z * event)) :
  count is_terminal_record (trace (start_run c files r evs)) <= 2
  /\ count is_any_unlink (trace (start_run c files r evs)) <= 3.
Proof.
  assert (H : forall evs s,
             count is_terminal_record (trace (run_events evs s))
               + records_bound (chain s)
             <= records_bound (chain (final (run_events evs s)))
             /\ count is_any_unlink (trace (run_events evs s))
                  + cleanup_bound (chain s)
                <= cleanup_bound (chain (final (run_events evs s)))).
  { clear. induction evs as [|[now e] evs IH]; intros s.
    - simpl. split; lia.
    - cbn [run_events]. destruct (step_bounds s now e) as [H1 H2].
      destruct (IH (final (step s now e))) as [K1 K2].
      rewrite final_andThen, trace_andThen, !count_app. split; lia. }
  destruct (H evs (final (start_pipeline c files r))) as [H1 H2].
  unfold start_run. rewrite trace_andThen, !count_app.
  set (s' := final (run_events evs (final (start_pipeline c files r)))) in *.
  assert (records_bound (chain s') <= 2) by (destruct (chain s'); simpl; lia).
  assert (cleanup_bound (chain s') <= 3) by (destruct (chain s'); simpl; lia).
  simpl in H1, H2. simpl. split; lia.
Qed.

(** * The session handlers *)

(** X7: while no core is set, that is until the first [configureCore] has
    resolved, every [login-init] request calls [configureCore] again, for
    the directory it names or else for [coinstacHome]; none of them is
    answered without configuring, and the main process is left as it is.
    When two such configurations resolve, the core of the later one is the
    one kept.  With a non-empty [coinstacHome] the directory handed to
    [configureCore] is never empty. *)
Theorem X7_every_login_configures_until_core_is_set (mp : mainProcess)
    (reqs : list (string * option string)) :
  initializedCore mp = None ->
  login_requests mp reqs
  = (mp,
     map (fun req => ConfigureCore (fst req)
                       (directory_or_home (snd req) (coinstacHome mp)))
         reqs,
     map (fun _ => LoginConfiguring) reqs)
  /\ (forall c1 c2,
         initializedCore
           (fst (login_configured (fst (login_configured mp c1)) c2))
         = Some c2)
  /\ (coinstacHome mp <> EmptyString ->
      forall dir, directory_or_home dir (coinstacHome mp) <> EmptyString).
Proof.
  intros Hnone. split; [|split].
  - induction reqs as [|[userId dir] reqs IH]; simpl; [reflexivity|].
    unfold login_init. rewrite Hnone, IH. reflexivity.
  - reflexivity.
  - intros Hhome [[|ch d]|]; simpl; congruence.
Qed.

(** X9: a docker query ([get-all-images], [get-status]) never hands the
    failure of the docker manager to the renderer.  When the query rejects
    with a value whose properties can be read, the failure is logged and
    sent on [docker-error] and the promise of the listener is fulfilled
    with [undefined]; only a rejection with [undefined] or [null] makes the
    listener's promise reject, with the TypeError of the handler itself.
    A fulfilled query is passed on unchanged. *)
Theorem X9_docker_query_swallows_failures (o : outcome value) :
  ((exists reason, snd (docker_query o) = Rejected reason)
   <-> (o = Rejected VUndefined \/ o = Rejected VNull))
  /\ (forall err,
         o = Rejected err -> err <> VUndefined -> err <> VNull ->
         snd (docker_query o) = Fulfilled VUndefined
         /\ exists m st,
              get_prop err "message" = Some m
              /\ get_prop err "stack" = Some st
              /\ fst (docker_query o)
                 = [LogError err;
                    Send (DockerError (VObj [("message", m); ("stack", st)]))])
  /\ (forall data,
         o = Fulfilled data -> docker_query o = ([], Fulfilled data)).
Proof.
  split; [|split].
  - split.
    + intros [reason H]. destruct o as [data|[]]; simpl in H;
        try discriminate; auto.
    + intros [->| ->]; simpl; eauto.
  - intros err -> H1 H2. destruct err; try congruence;
      simpl; split; eauto.
  - intros data ->. reflexivity.
Qed.

(** * The [download-comps] handler *)

Section DownloadComps.

Variable JSON_parse : string -> completion.

Lemma pull_completes_app (tr1 tr2 : list downloadAction) :
  pull_completes (tr1 ++ tr2) = pull_completes tr1 + pull_completes tr2.
Proof. unfold pull_completes. now rewrite filter_app, length_app. Qed.

Lemma forEach_downloads_no_complete (cs : list compStream) (i : nat) :
  pull_completes (forEach_downloads i cs) = 0.
Proof.
  revert i; induction cs as [|entry cs IH]; intros i; simpl; [reflexivity|].
  rewrite pull_completes_app, IH.
  destruct (comp_stream entry); reflexivity.
Qed.

(** One callback keeps [params]; it sends [docker-pull-complete] only in
    the turn in which the counter reaches the number of computations. *)
Lemma download_step_complete (s : downloadState) (e : downloadEvent) :
  (dl_promise s = None -> streamsComplete s = 0 /\ dl_streams s = []) ->
  let n := List.length (params_computations (dl_params s)) in
  let x := download_step JSON_parse s e in
  dl_params (fst x) = dl_params s
  /\ (dl_promise (fst x) = None ->
      streamsComplete (fst x) = 0 /\ dl_streams (fst x) = [])
  /\ pull_completes (snd x) + b2n (Nat.leb n (streamsComplete s))
     <= b2n (Nat.leb n (streamsComplete (fst x)))
  /\ (truthy_id (params_consortiumId (dl_params s)) = None ->
      pull_completes (snd x) = 0)
  /\ Forall (fun a => match a with
                      | DockerPullComplete id =>
                          params_consortiumId (dl_params s) = Some id
                      | _ => True
                      end) (snd x).
Proof.
  intros Hinit n x. unfold x, download_step.
  assert (Hi1 : dl_promise s = None -> streamsComplete s = 0)
    by (intros H; now destruct (Hinit H)).
  assert (Hi2 : dl_promise s = None -> dl_streams s = [])
    by (intros H; now destruct (Hinit H)).
  assert (Hmono : b2n (Nat.leb n (streamsComplete s))
                  <= b2n (Nat.leb n (S (streamsComplete s)))).
  { destruct (Nat.leb n (streamsComplete s)) eqn:H1; simpl; [|lia].
    apply Nat.leb_le in H1.
    assert (H2 : Nat.leb n (S (streamsComplete s)) = true)
      by (apply Nat.leb_le; lia).
    rewrite H2. simpl. lia. }
  destruct e as [[cs|err]|i data|i|i err].
  - destruct (dl_promise s) eqn:Ep; simpl.
    + repeat split; auto; try lia; congruence.
    + destruct (Hinit eq_refl) as [Hsc _]. rewrite Hsc.
      rewrite forEach_downloads_no_complete.
      repeat split; try discriminate; auto.
      clear. generalize 0. induction cs as [|entry cs IH]; intros i; simpl.
      * constructor.
      * apply Forall_app. split; [|apply IH].
        destruct (comp_stream entry); repeat constructor.
  - destruct (dl_promise s) eqn:Ep; simpl.
    + repeat split; auto; try lia; congruence.
    + destruct (Hinit eq_refl) as [Hsc _]. rewrite Hsc.
      destruct (json_error_entry err); simpl;
        repeat split; try discriminate; auto.
  - destruct (download_listener s i);
      [|simpl; repeat split; auto; lia].
    destruct (parse_all JSON_parse (compact (split_crlf EmptyString data)));
      simpl; repeat split; auto; try lia; repeat constructor.
  - destruct (download_listener s i) as [entry|] eqn:El;
      [|simpl; repeat split; auto; lia].
    assert (Hsome : dl_promise s <> None).
    { intros Hn. unfold download_listener in El. rewrite (Hi2 Hn) in El.
      destruct i; discriminate. }
    cbn [fst snd dl_params dl_promise streamsComplete dl_streams
         with_download].
    fold n.
    destruct (truthy_id (params_consortiumId (dl_params s))) as [id|] eqn:Et.
    + assert (Hid : params_consortiumId (dl_params s) = Some id).
      { destruct (params_consortiumId (dl_params s)) as [[|ch rest]|];
          simpl in Et; congruence. }
      destruct (Nat.eqb (S (streamsComplete s)) n) eqn:En.
      * apply Nat.eqb_eq in En.
        assert (H1 : Nat.leb n (streamsComplete s) = false)
          by (apply Nat.leb_gt; lia).
        assert (H2 : Nat.leb n (S (streamsComplete s)) = true)
          by (apply Nat.leb_le; lia).
        rewrite H1, H2. unfold pull_completes. simpl.
        repeat split; auto; try contradiction; try congruence;
          try discriminate; try lia; repeat constructor; assumption.
      * unfold pull_completes. cbn [filter is_pull_complete List.length].
        repeat split; auto; try contradiction; try congruence;
          try discriminate; try lia; repeat constructor.
    + unfold pull_completes. cbn [filter is_pull_complete List.length].
      repeat split; auto; try contradiction; try congruence;
        try discriminate; try lia; repeat constructor.
  - destruct (download_listener s i);
      [|simpl; repeat split; auto; lia].
    destruct (json_error_entry err); simpl; repeat split; auto; try lia;
      repeat constructor.
Qed.

Lemma download_events_complete (evs : list downloadEvent)
    (s : downloadState) :
  (dl_promise s = None -> streamsComplete s = 0 /\ dl_streams s = []) ->
  let n := List.length (params_computations (dl_params s)) in
  let x := download_events JSON_parse evs s in
  pull_completes (snd x) + b2n (Nat.leb n (streamsComplete s)) <= 1
  /\ (truthy_id (params_consortiumId (dl_params s)) = None ->
      pull_completes (snd x) = 0)
  /\ Forall (fun a => match a with
                      | DockerPullComplete id =>
                          params_consortiumId (dl_params s) = Some id
                      | _ => True
                      end) (snd x).
Proof.
  revert s; induction evs as [|e evs IH]; intros s Hinit n x.
  - unfold x. simpl. repeat split; auto.
    destruct (Nat.leb n (streamsComplete s)); simpl; lia.
  - unfold x. cbn [download_events].
    destruct (download_step_complete s e Hinit)
      as [Hp [Hinit' [Hcount [Hnone Hall]]]].
    destruct (download_step JSON_parse s e) as [s1 a1].
    cbn [fst snd] in *.
    specialize (IH s1 Hinit'). cbv zeta in IH. rewrite Hp in IH.
    destruct IH as [Kcount [Knone Kall]].
    destruct (download_events JSON_parse evs s1) as [s2 a2].
    cbn [fst snd] in *. rewrite pull_completes_app. fold n in Hcount, Kcount.
    split; [lia|]. split.
    + intros Ht. rewrite (Hnone Ht), (Knone Ht). reflexivity.
    + apply Forall_app. split; assumption.
Qed.

(** X10: whatever the streams emit, one [download-comps] invocation sends
    [docker-pull-complete] at most once, and with the [consortiumId] of its
    [params]; when [params] has no [consortiumId] (or an empty one) it is
    never sent, however many pulls end. *)
Theorem X10_pull_complete_at_most_once (params : downloadParams)
    (evs : list downloadEvent) :
  let tr := snd (download_run JSON_parse params evs) in
  pull_completes tr <= 1
  /\ (truthy_id (params_consortiumId params) = None -> pull_completes tr = 0)
  /\ Forall (fun a => match a with
                      | DockerPullComplete id =>
                          params_consortiumId params = Some id
                      | _ => True
                      end) tr.
Proof.
  unfold download_run, download_comps.
  pose proof (download_events_complete evs
                {| dl_params := params; dl_streams := [];
                   streamsComplete := 0; dl_promise := None |}) as H.
  cbv zeta in H. cbn [dl_params dl_promise streamsComplete dl_streams] in H.
  destruct H as [Hcount [Hnone Hall]]; [auto|].
  destruct (download_events JSON_parse evs _) as [s1 a1].
  cbn [fst snd] in *. rewrite pull_completes_app.
  change (pull_completes [PullImages (params_computations params)]) with 0.
  split; [lia|]. split; [exact Hnone|].
  constructor; [exact I | exact Hall].
Qed.

Lemma download_listener_listens (s : downloadState) (i : nat) :
  listens (dl_streams s) i = true
  <-> exists entry, download_listener s i = Some entry.
Proof.
  unfold listens, download_listener, has_started.
  destruct (nth_error (dl_streams s) i) as [entry|]; simpl.
  - destruct (comp_stream entry); simpl; split; eauto; try discriminate.
    intros [e He]. discriminate.
  - split; [discriminate | intros [e He]; discriminate].
Qed.

(** As long as the ['end'] events still to come cannot bring the counter
    up to the number of computations, [docker-pull-complete] is not sent. *)
Lemma download_events_short (evs : list downloadEvent) (s : downloadState) :
  dl_promise s <> None ->
  streamsComplete s
    + List.length (filter (listens (dl_streams s)) (ended_streams evs))
  < List.length (params_computations (dl_params s)) ->
  pull_completes (snd (download_events JSON_parse evs s)) = 0.
Proof.
  revert s; induction evs as [|e evs IH]; intros s Hsome Hlt; [reflexivity|].
  cbn [download_events].
  assert (Hnext : forall s1 a1,
             dl_promise s1 <> None ->
             dl_params s1 = dl_params s ->
             dl_streams s1 = dl_streams s ->
             streamsComplete s1
               + List.length (filter (listens (dl_streams s))
                                (ended_streams evs))
             < List.length (params_computations (dl_params s)) ->
             pull_completes a1 = 0 ->
             pull_completes
               (snd (let '(s2, a2) := download_events JSON_parse evs s1 in
                     (s2, a1 ++ a2))) = 0).
  { intros s1 a1 H1 H2 H3 H4 H5.
    specialize (IH s1 H1). rewrite H2, H3 in IH. specialize (IH H4).
    destruct (download_events JSON_parse evs s1) as [s2 a2].
    cbn [snd] in *. now rewrite pull_completes_app, H5, IH. }
  destruct e as [o|i data|i|i err]; unfold download_step.
  - destruct (dl_promise s) eqn:Ep; [|congruence].
    apply Hnext; auto. congruence.
  - destruct (download_listener s i);
      [destruct (parse_all JSON_parse
                   (compact (split_crlf EmptyString data)))|];
      apply Hnext; auto.
  - cbn [ended_streams filter] in Hlt.
    destruct (download_listener s i) as [entry|] eqn:El.
    + assert (Hl : listens (dl_streams s) i = true).
      { apply download_listener_listens. eauto. }
      rewrite Hl in Hlt. cbn [List.length] in Hlt.
      apply Hnext; auto.
      * cbn [streamsComplete with_download]. lia.
      * destruct (truthy_id (params_consortiumId (dl_params s)));
          [|reflexivity].
        assert (En : Nat.eqb (S (streamsComplete s))
                       (List.length (params_computations (dl_params s)))
                     = false) by (apply Nat.eqb_neq; lia).
        rewrite En. reflexivity.
    + assert (Hl : listens (dl_streams s) i = false).
      { destruct (listens (dl_streams s) i) eqn:E; [|reflexivity].
        apply download_listener_listens in E. destruct E as [e He].
        congruence. }
      rewrite Hl in Hlt. apply Hnext; auto.
  - destruct (download_listener s i);
      [destruct (json_error_entry err)|]; apply Hnext; auto.
Qed.

Lemma filter_length_lt (A : Type) (P : A -> bool) (l : list A) (x : A) :
  In x l -> P x = false ->
  List.length (filter P l) < List.length l.
Proof.
  induction l as [|a l IH]; simpl; intros Hin Hx; [contradiction|].
  pose proof (filter_length_le P l) as Hle.
  destruct Hin as [->|Hin].
  - rewrite Hx. lia.
  - specialize (IH Hin Hx). destruct (P a); simpl; lia.
Qed.

(** X11: [docker-pull-complete] needs every pull to end.  When
    [pullImages] answers with one entry per computation, one of them for a
    pull that never started, and no stream emits ['end'] twice, then
    [docker-pull-complete] is never sent, whatever else the streams
    emit. *)
Theorem X11_no_pull_complete_when_a_pull_never_started
    (params : downloadParams) (cs : list compStream)
    (evs : list downloadEvent) :
  List.length cs = List.length (params_computations params) ->
  existsb (fun entry => negb (has_started entry)) cs = true ->
  NoDup (ended_streams evs) ->
  pull_completes
    (snd (download_run JSON_parse params
            (PullImagesSettled (Fulfilled cs) :: evs))) = 0.
Proof.
  intros Hlen Hplain Hnd.
  unfold download_run, download_comps. cbn [download_events download_step
    dl_promise].
  pose proof (download_events_short evs
                (with_download
                   {| dl_params := params; dl_streams := [];
                      streamsComplete := 0; dl_promise := None |}
                   cs 0 (Some (Fulfilled VUndefined)))) as H.
  cbn [with_download dl_promise dl_streams dl_params streamsComplete] in H.
  destruct (download_events JSON_parse evs _) as [s2 a2].
  cbn [snd] in *.
  rewrite !pull_completes_app, forEach_downloads_no_complete.
  change (pull_completes [PullImages (params_computations params)]) with 0.
  rewrite H; [reflexivity | discriminate |].
  apply existsb_exists in Hplain. destruct Hplain as [entry [Hin Hns]].
  apply In_nth_error in Hin. destruct Hin as [j Hj].
  assert (Hjlt : j < List.length cs).
  { apply nth_error_Some. congruence. }
  assert (Hbound : List.length (filter (listens cs) (ended_streams evs))
                   <= List.length (filter (listens cs)
                                     (seq 0 (List.length cs)))).
  { apply NoDup_incl_length; [now apply NoDup_filter|].
    intros i Hi. apply filter_In in Hi. destruct Hi as [_ Hl].
    apply filter_In. split; [|exact Hl].
    apply in_seq. unfold listens in Hl.
    destruct (nth_error cs i) eqn:E; [|discriminate].
    assert (i < List.length cs) by (apply nth_error_Some; congruence).
    lia. }
  assert (Hstrict : List.length (filter (listens cs) (seq 0 (List.length cs)))
                    < List.length (seq 0 (List.length cs))).
  { apply (filter_length_lt nat (listens cs) _ j).
    - apply in_seq. lia.
    - unfold listens. rewrite Hj.
      now destruct (has_started entry). }
  rewrite length_seq in Hstrict. simpl. lia.
Qed.

(** ** The lines of a data chunk *)

Lemma append_empty_r (s : string) : String.append s EmptyString = s.
Proof. induction s as [|c s IH]; simpl; [reflexivity | now rewrite IH]. Qed.

Lemma append_snoc (cur : string) (c : Ascii.ascii) (rest : string) :
  String.append (String.append cur (String c EmptyString)) rest
  = String.append cur (String c rest).
Proof. induction cur as [|d cur IH]; simpl; [reflexivity | now rewrite IH]. Qed.

Lemma split_crlf_last (cur : string) (c : Ascii.ascii) :
  split_crlf cur (String c EmptyString)
  = [String.append cur (String c EmptyString)].
Proof. reflexivity. Qed.

Lemma split_crlf_two (cur : string) (c c' : Ascii.ascii) (rest : string) :
  split_crlf cur (String c (String c' rest))
  = if Ascii.eqb c CR && Ascii.eqb c' LF
    then cur :: split_crlf EmptyString rest
    else split_crlf (String.append cur (String c EmptyString))
           (String c' rest).
Proof. reflexivity. Qed.

Lemma split_crlf_not_nil (s cur : string) : split_crlf cur s <> [].
Proof.
  assert (H : forall n s cur, String.length s <= n -> split_crlf cur s <> []).
  { clear. induction n as [|n IH]; intros [|c [|c' rest]] cur Hn;
      try discriminate; try (simpl in Hn; lia).
    rewrite split_crlf_two.
    destruct (Ascii.eqb c CR && Ascii.eqb c' LF); [discriminate|].
    apply IH. simpl in *. lia. }
  apply (H (String.length s)). lia.
Qed.

Lemma concat_cons (sep x : string) (l : list string) :
  l <> [] ->
  String.concat sep (x :: l)
  = String.append x (String.append sep (String.concat sep l)).
Proof. destruct l; [congruence | reflexivity]. Qed.

Lemma split_crlf_concat (s cur : string) :
  String.concat CRLF (split_crlf cur s) = String.append cur s.
Proof.
  assert (H : forall n s cur,
             String.length s <= n ->
             String.concat CRLF (split_crlf cur s) = String.append cur s).
  { clear. induction n as [|n IH]; intros [|c [|c' rest]] cur Hn;
      try (simpl in Hn; lia);
      try (simpl; now rewrite ?append_empty_r).
    rewrite split_crlf_two.
    destruct (Ascii.eqb c CR && Ascii.eqb c' LF) eqn:E.
    - apply andb_prop in E. destruct E as [Ec Ec'].
      apply Ascii.eqb_eq in Ec, Ec'. subst c c'.
      rewrite concat_cons by apply split_crlf_not_nil.
      rewrite IH by (simpl in Hn; lia). reflexivity.
    - rewrite IH by (simpl in *; lia). apply append_snoc. }
  apply (H (String.length s)). lia.
Qed.

Lemma has_crlf_snoc (u : string) (c c' : Ascii.ascii) :
  has_crlf (String.append u (String c (String c' EmptyString)))
  = has_crlf (String.append u (String c EmptyString))
    || (Ascii.eqb c CR && Ascii.eqb c' LF).
Proof.
  induction u as [|a u IH]; simpl.
  - now rewrite orb_false_r.
  - destruct u as [|b u]; simpl in *.
    + now rewrite !orb_false_r.
    + rewrite IH, orb_assoc. reflexivity.
Qed.

Lemma has_crlf_prefix (u v : string) :
  has_crlf (String.append u v) = false -> has_crlf u = false.
Proof.
  induction u as [|a u IH]; simpl; [reflexivity|].
  destruct u as [|b u]; simpl in *; [reflexivity|].
  intros H. apply orb_false_iff in H. destruct H as [Hab Hrest].
  rewrite Hab, (IH Hrest). reflexivity.
Qed.

(** No segment of the split holds a separator, when the segment read so
    far holds none and does not end in the middle of one. *)
Lemma split_crlf_no_separator (s cur : string) :
  has_crlf cur = false ->
  (forall c rest,
      s = String c rest ->
      has_crlf (String.append cur (String c EmptyString)) = false) ->
  Forall (fun seg => has_crlf seg = false) (split_crlf cur s).
Proof.
  assert (H : forall n s cur,
             String.length s <= n ->
             has_crlf cur = false ->
             (forall c rest,
                 s = String c rest ->
                 has_crlf (String.append cur (String c EmptyString)) = false) ->
             Forall (fun seg => has_crlf seg = false) (split_crlf cur s)).
  { clear. induction n as [|n IH]; intros [|c [|c' rest]] cur Hn Hcur Hnext;
      try (simpl in Hn; lia);
      try (constructor; [exact Hcur | constructor]).
    - rewrite split_crlf_last. constructor; [|constructor].
      apply (Hnext c EmptyString eq_refl).
    - rewrite split_crlf_two.
      destruct (Ascii.eqb c CR && Ascii.eqb c' LF) eqn:E.
      + constructor; [exact Hcur|].
        apply IH; [simpl in Hn; lia | reflexivity |].
        intros c0 rest0 _. reflexivity.
      + pose proof (Hnext c (String c' rest) eq_refl) as Hc.
        apply IH; [simpl in *; lia | exact Hc |].
        intros c0 rest0 Heq. inversion Heq; subst.
        rewrite append_snoc, has_crlf_snoc, Hc, E. reflexivity. }
  intros Hcur Hnext. apply (H (String.length s)); auto.
Qed.

(** X12: the lines that the ['data'] listener hands to [JSON.parse] are
    the non-empty segments of the chunk between CR LF separators: joined
    with CR LF the segments give back the chunk, no segment holds a
    CR LF of its own, and no empty line is ever parsed. *)
Theorem X12_chunk_split_at_crlf (data : string) :
  String.concat CRLF (split_crlf EmptyString data) = data
  /\ Forall (fun seg => has_crlf seg = false) (split_crlf EmptyString data)
  /\ Forall (fun line => line <> EmptyString) (chunk_lines data)
  /\ (forall line,
         In line (chunk_lines data)
         <-> In line (split_crlf EmptyString data) /\ line <> EmptyString).
Proof.
  split; [apply (split_crlf_concat data EmptyString)|].
  split.
  { apply split_crlf_no_separator; [reflexivity|].
    intros c rest _. reflexivity. }
  assert (H : forall line,
             In line (chunk_lines data)
             <-> In line (split_crlf EmptyString data)
                 /\ line <> EmptyString).
  { intros line. unfold chunk_lines, compact. rewrite filter_In.
    rewrite negb_true_iff, String.eqb_neq. reflexivity. }
  split; [|exact H].
  apply Forall_forall. intros line Hin. now apply H in Hin.
Qed.

Lemma parse_all_returns (lines : list string) :
  (forall line, In line lines -> exists v, JSON_parse line = Returns v) ->
  exists output,
    parse_all JSON_parse lines = inl output
    /\ List.length output = List.length lines.
Proof.
  induction lines as [|l lines IH]; intros H; simpl.
  - exists []. auto.
  - destruct (H l (or_introl eq_refl)) as [v Hv]. rewrite Hv.
    destruct IH as [output [Ho Hlen]].
    { intros line Hin. apply H. now right. }
    rewrite Ho. exists (v :: output). simpl. auto.
Qed.

Lemma parse_all_throws (lines : list string) (line : string) (err : value) :
  In line lines -> JSON_parse line = Throws err ->
  exists err', parse_all JSON_parse lines = inr err'.
Proof.
  induction lines as [|l lines IH]; intros Hin Hthrow; simpl;
    [contradiction|].
  destruct (JSON_parse l) as [v|e] eqn:El; [|eauto].
  destruct Hin as [->|Hin]; [congruence|].
  destruct (IH Hin Hthrow) as [err' ->]. eauto.
Qed.

(** X13: a data chunk is forwarded whole or not at all.  On a stream with
    listeners, when every non-empty line of the chunk parses, one
    [docker-out] message is sent with one entry per line, tagged with the
    computation of the stream; when [JSON.parse] throws on any line the
    exception leaves the listener and nothing is sent for the chunk, its
    well-formed lines included.  The closure is left as it is. *)
Theorem X13_chunk_forwarded_whole_or_not_at_all (s : downloadState)
    (i : nat) (data : string) (entry : compStream) :
  download_listener s i = Some entry ->
  let x := download_step JSON_parse s (CompData i data) in
  fst x = s
  /\ ((forall line, In line (chunk_lines data) ->
                    exists v, JSON_parse line = Returns v) ->
      exists output,
        snd x = [DockerOut output (Some (compId entry, compName entry))]
        /\ List.length output = List.length (chunk_lines data))
  /\ (forall line err,
         In line (chunk_lines data) -> JSON_parse line = Throws err ->
         exists err', snd x = [ListenerThrew err']).
Proof.
  intros Hl x. unfold x, download_step. rewrite Hl.
  fold (chunk_lines data). split; [|split].
  - destruct (parse_all JSON_parse (chunk_lines data)); reflexivity.
  - intros Hall. destruct (parse_all_returns _ Hall) as [output [Ho Hlen]].
    rewrite Ho. exists output. split; [reflexivity | exact Hlen].
  - intros line err Hin Hthrow.
    destruct (parse_all_throws _ line err Hin Hthrow) as [err' He].
    rewrite He. exists err'. reflexivity.
Qed.

End DownloadComps.

(** ** When the pulls have ended *)

Section DownloadCompletes.

Variable JSON_parse : string -> completion.

Lemma download_step_keeps (s : downloadState) (e : downloadEvent) :
  dl_promise s <> None ->
  let s1 := fst (download_step JSON_parse s e) in
  dl_promise s1 <> None
  /\ dl_params s1 = dl_params s
  /\ dl_streams s1 = dl_streams s.
Proof.
  intros Hsome. destruct e as [o|i data|i|i err]; unfold download_step.
  - destruct (dl_promise s) eqn:Ep; [|congruence].
    simpl. rewrite Ep. repeat split; congruence.
  - destruct (download_listener s i);
      [destruct (parse_all JSON_parse
                   (compact (split_crlf EmptyString data)))|];
      simpl; auto.
  - destruct (download_listener s i); simpl; auto.
  - destruct (download_listener s i);
      [destruct (json_error_entry err)|]; simpl; auto.
Qed.

Lemma download_events_reach (evs : list downloadEvent) (s : downloadState)
    (id : string) :
  dl_promise s <> None ->
  truthy_id (params_consortiumId (dl_params s)) = Some id ->
  streamsComplete s < List.length (params_computations (dl_params s)) ->
  List.length (params_computations (dl_params s))
  <= streamsComplete s
     + List.length (filter (listens (dl_streams s)) (ended_streams evs)) ->
  pull_completes (snd (download_events JSON_parse evs s)) = 1.
Proof.
  revert s; induction evs as [|e evs IH]; intros s Hsome Hid Hlt Hge.
  - simpl in Hge. lia.
  - cbn [download_events].
    destruct (download_step_keeps s e Hsome) as [Hsome' [Hp' Hs']].
    assert (Hother : forall s1 a1,
               download_step JSON_parse s e = (s1, a1) ->
               streamsComplete s1 = streamsComplete s ->
               ended_streams (e :: evs) = ended_streams evs
               \/ (exists i, e = CompEnd i
                             /\ listens (dl_streams s) i = false) ->
               pull_completes a1 = 0 ->
               pull_completes
                 (snd (let '(s2, a2) := download_events JSON_parse evs s1 in
                       (s2, a1 ++ a2))) = 1).
    { intros s1 a1 E Hsc Hends Ha1. rewrite E in *. cbn [fst] in *.
      specialize (IH s1 Hsome'). rewrite Hp', Hs', Hsc in IH.
      assert (Hge' : List.length (params_computations (dl_params s))
                     <= streamsComplete s
                        + List.length (filter (listens (dl_streams s))
                                         (ended_streams evs))).
      { destruct Hends as [Heq|[i [-> Hl]]].
        - now rewrite Heq in Hge.
        - cbn [ended_streams filter] in Hge. now rewrite Hl in Hge. }
      specialize (IH Hid Hlt Hge').
      destruct (download_events JSON_parse evs s1) as [s2 a2].
      cbn [snd] in *. rewrite pull_completes_app. lia. }
    destruct e as [o|i data|i|i err].
    + unfold download_step in *. destruct (dl_promise s) eqn:Ep;
        [|congruence].
      apply Hother; auto.
    + unfold download_step in *. destruct (download_listener s i);
        [destruct (parse_all JSON_parse
                     (compact (split_crlf EmptyString data)))|];
        apply Hother; auto.
    + destruct (download_listener s i) as [entry|] eqn:El.
      * assert (Hl : listens (dl_streams s) i = true).
        { apply download_listener_listens. eauto. }
        cbn [ended_streams filter] in Hge. rewrite Hl in Hge.
        cbn [List.length] in Hge.
        unfold download_step in *. rewrite El in *.
        cbn [fst with_download dl_promise dl_params dl_streams] in *.
        rewrite Hid.
        destruct (Nat.eqb (S (streamsComplete s))
                    (List.length (params_computations (dl_params s))))
          eqn:En.
        -- (* the counter reaches the number of computations *)
           apply Nat.eqb_eq in En.
           pose proof (download_events_complete JSON_parse evs
                         (with_download s (dl_streams s)
                            (S (streamsComplete s)) (dl_promise s))) as Hc.
           cbv zeta in Hc.
           cbn [with_download dl_promise dl_params dl_streams
                streamsComplete] in Hc.
           destruct Hc as [Hc _]; [intros Hn; congruence|].
           assert (Hleb : Nat.leb (List.length
                                     (params_computations (dl_params s)))
                            (S (streamsComplete s)) = true)
             by (apply Nat.leb_le; lia).
           rewrite Hleb in Hc. simpl b2n in Hc.
           destruct (download_events JSON_parse evs _) as [s2 a2].
           cbn [snd] in *.
           change (pull_completes
                     ((DockerOut [complete_entry (compId entry)]
                         (Some (compId entry, compName entry))
                       :: [DockerPullComplete id]) ++ a2))
             with (S (pull_completes a2)).
           lia.
        -- apply Nat.eqb_neq in En.
           specialize (IH (with_download s (dl_streams s)
                             (S (streamsComplete s)) (dl_promise s))).
           cbn [with_download dl_promise dl_params dl_streams
                streamsComplete] in IH.
           specialize (IH Hsome Hid).
           destruct (download_events JSON_parse evs _) as [s2 a2].
           cbn [snd] in *.
           change (pull_completes
                     ((DockerOut [complete_entry (compId entry)]
                         (Some (compId entry, compName entry))
                       :: []) ++ a2))
             with (pull_completes a2).
           apply IH; lia.
      * assert (Hl : listens (dl_streams s) i = false).
        { destruct (listens (dl_streams s) i) eqn:E; [|reflexivity].
          apply download_listener_listens in E. destruct E as [e He].
          congruence. }
        unfold download_step in *. rewrite El in *.
        apply Hother; eauto.
    + unfold download_step in *. destruct (download_listener s i);
        [destruct (json_error_entry err)|]; apply Hother; auto.
Qed.

(** X14: when the pull is made for a consortium, [docker-pull-complete] is
    sent exactly once as soon as the streams with listeners have emitted
    as many ['end'] events as [params] names computations (at least one),
    whatever data and errors come in between: the handler counts the
    ['end'] events, not the streams that ended. *)
Theorem X14_pull_complete_after_enough_ends (params : downloadParams)
    (cs : list compStream) (evs : list downloadEvent) (id : string) :
  truthy_id (params_consortiumId params) = Some id ->
  0 < List.length (params_computations params) ->
  List.length (params_computations params)
  <= List.length (filter (listens cs) (ended_streams evs)) ->
  let tr := snd (download_run JSON_parse params
                   (PullImagesSettled (Fulfilled cs) :: evs)) in
  pull_completes tr = 1
  /\ existsb (fun a => match a with
                       | DockerPullComplete id' => String.eqb id' id
                       | _ => false
                       end) tr = true.
Proof.
  intros Hid Hpos Hge tr.
  assert (Hone : pull_completes tr = 1).
  { unfold tr, download_run, download_comps.
    cbn [download_events download_step dl_promise].
    pose proof (download_events_reach evs
                  (with_download
                     {| dl_params := params; dl_streams := [];
                        streamsComplete := 0; dl_promise := None |}
                     cs 0 (Some (Fulfilled VUndefined))) id) as H.
    cbn [with_download dl_promise dl_streams dl_params streamsComplete] in H.
    destruct (download_events JSON_parse evs _) as [s2 a2].
    cbn [snd] in *.
    rewrite !pull_completes_app, forEach_downloads_no_complete.
    change (pull_completes [PullImages (params_computations params)])
      with 0.
    rewrite H; auto; discriminate. }
  split; [exact Hone|].
  assert (Hall : Forall (fun a => match a with
                                  | DockerPullComplete id' =>
                                      params_consortiumId params = Some id'
                                  | _ => True
                                  end) tr).
  { unfold tr, download_run, download_comps.
    pose proof (download_events_complete JSON_parse
                  (PullImagesSettled (Fulfilled cs) :: evs)
                  {| dl_params := params; dl_streams := [];
                     streamsComplete := 0; dl_promise := None |}) as H.
    cbv zeta in H.
    cbn [dl_params dl_promise streamsComplete dl_streams] in H.
    destruct H as [_ [_ H]]; [auto|].
    destruct (download_events JSON_parse _ _) as [s1 a1].
    cbn [snd] in *. constructor; [exact I | exact H]. }
  unfold pull_completes in Hone.
  destruct (filter is_pull_complete tr) as [|a l] eqn:Ef; [discriminate|].
  assert (Hin : In a (filter is_pull_complete tr))
    by (rewrite Ef; now left).
  apply filter_In in Hin. destruct Hin as [Hin Ha].
  apply existsb_exists. exists a. split; [exact Hin|].
  rewrite Forall_forall in Hall. specialize (Hall a Hin).
  destruct a; try discriminate.
  assert (Some consortiumId = Some id).
  { rewrite <- Hall.
    destruct (params_consortiumId params) as [[|ch rest]|];
      simpl in Hid; congruence. }
  inversion H. apply String.eqb_refl.
Qed.

End DownloadCompletes.

(** * Instances *)


Lemma X6_prune_when_last_pull_ends_witness :
  let cs := [Emitter; Emitter; Emitter] in
  let x := start_run sample_consortium VNull sample_run
             ((10%Z, PullSettled (Fulfilled cs)) :: end_events scenario1_ends) in
  let all_ended := Nat.eqb (List.length scenario1_ends) (List.length cs) in
  chain (final x) = (if all_ended then AwaitingPrune else AwaitingStreams)
  /\ count is_prune (trace x) = (if all_ended then 1 else 0)
  /\ (all_ended = true -> last (trace x) PruneImages = PruneImages)
  /\ count is_start (trace x) = 0.
Proof.
  apply (X6_prune_when_last_pull_ends sample_consortium VNull sample_run
           10%Z [Emitter; Emitter; Emitter] scenario1_ends).
  - reflexivity.
  - simpl. repeat (apply NoDup_cons; [simpl; intuition discriminate|]).
    apply NoDup_nil.
  - simpl. repeat (apply Forall_cons; [lia|]). apply Forall_nil.
Defined.

Lemma X7_every_login_configures_until_core_is_set_witness :
  login_requests logged_out [("author", None); ("author", Some "/tmp/x")]
  = (logged_out,
     [ConfigureCore "author" "/home/author/.coinstac";
      ConfigureCore "author" "/tmp/x"],
     [LoginConfiguring; LoginConfiguring]).
Proof.
  apply (X7_every_login_configures_until_core_is_set logged_out
           [("author", None); ("author", Some "/tmp/x")]).
  reflexivity.
Defined.

Lemma X11_no_pull_complete_when_a_pull_never_started_witness :
  pull_completes
    (snd (download_run braces_only two_computations
            (PullImagesSettled (Fulfilled second_pull_failed)
               :: [CompData 0 two_lines; CompEnd 0; CompEnd 1])))
  = 0.
Proof.
  apply (X11_no_pull_complete_when_a_pull_never_started braces_only
           two_computations second_pull_failed
           [CompData 0 two_lines; CompEnd 0; CompEnd 1]).
  - reflexivity.
  - reflexivity.
  - simpl. repeat (apply NoDup_cons; [simpl; intuition discriminate|]).
    apply NoDup_nil.
Defined.

Lemma X13_chunk_forwarded_whole_or_not_at_all_witness :
  let x := download_step braces_only downloading_state
             (CompData 0 two_lines) in
  fst x = downloading_state
  /\ ((forall line, In line (chunk_lines two_lines) ->
                    exists v, braces_only line = Returns v) ->
      exists output,
        snd x = [DockerOut output (Some ("comp-a", "imgA"))]
        /\ List.length output = List.length (chunk_lines two_lines))
  /\ (forall line err,
         In line (chunk_lines two_lines) -> braces_only line = Throws err ->
         exists err', snd x = [ListenerThrew err']).
Proof.
  apply (X13_chunk_forwarded_whole_or_not_at_all braces_only
           downloading_state 0 two_lines
           {| compId := "comp-a"; compName := "imgA";
              comp_stream := Emitter |}).
  reflexivity.
Defined.

Lemma X14_pull_complete_after_enough_ends_witness :
  let tr := snd (download_run braces_only two_computations
                   (PullImagesSettled (Fulfilled both_started)
                      :: [CompEnd 1; CompData 0 two_lines; CompEnd 0])) in
  pull_completes tr = 1
  /\ existsb (fun a => match a with
                       | DockerPullComplete id' => String.eqb id' "cons-1"
                       | _ => false
                       end) tr = true.
Proof.
  apply (X14_pull_complete_after_enough_ends braces_only two_computations
           both_started [CompEnd 1; CompData 0 two_lines; CompEnd 0]
           "cons-1").
  - reflexivity.
  - simpl. lia.
  - simpl. lia.
Defined.
